(** * SubscriptionManager: the subscription and micropayment ledger

    A shallow embedding of the Solidity contract [SubscriptionManager]
    (the agent-gated version, with custom errors) and the properties of
    its fee split, its failure behaviour, its schedule, its counters, its
    withdrawals, its escrows and its reentrancy guard.

    Storage is a record of finite maps; a function body is a computation
    in a state-and-revert monad; an external call to the USDC token is an
    interaction during which the token may call back into the ledger. *)

From Stdlib Require Import NArith Lia.
From stdpp Require Import gmap strings list.

Local Open Scope N_scope.

(** ** Solidity value types *)

Abbreviation address := N (only parsing).
Abbreviation bytes32 := N (only parsing).
Abbreviation uint256 := N (only parsing).

Definition UINT256_MAX : N := 2 ^ 256 - 1.

(** [uint256 public constant FEE_DENOMINATOR = 10000] *)
Definition FEE_DENOMINATOR : N := 10000.

(** The literal [1 days], in seconds. *)
Definition ONE_DAY : N := 86400.

(** ** Structs *)

Module Subscription.
Record t : Type := mk {
  subscriber : address;
  creator : address;
  amount : uint256;
  interval : uint256;
  nextPaymentDue : uint256;
  active : bool;
  totalPaid : uint256;
  paymentsCount : uint256
}.

(** The value of a storage slot that was never written. *)
Definition zero : t := mk 0 0 0 0 0 false 0 0.

Definition set_nextPaymentDue (v : uint256) (s : t) : t :=
  mk (subscriber s) (creator s) (amount s) (interval s) v (active s)
     (totalPaid s) (paymentsCount s).
Definition set_active (v : bool) (s : t) : t :=
  mk (subscriber s) (creator s) (amount s) (interval s) (nextPaymentDue s) v
     (totalPaid s) (paymentsCount s).
Definition set_totalPaid (v : uint256) (s : t) : t :=
  mk (subscriber s) (creator s) (amount s) (interval s) (nextPaymentDue s)
     (active s) v (paymentsCount s).
Definition set_paymentsCount (v : uint256) (s : t) : t :=
  mk (subscriber s) (creator s) (amount s) (interval s) (nextPaymentDue s)
     (active s) (totalPaid s) v.
End Subscription.

Module Escrow.
Record t : Type := mk {
  payer : address;
  creator : address;
  amount : uint256;
  createdAt : uint256;
  released : bool;
  contentId : string
}.

Definition zero : t := mk 0 0 0 0 false EmptyString.

Definition set_released (v : bool) (e : t) : t :=
  mk (payer e) (creator e) (amount e) (createdAt e) v (contentId e).
End Escrow.

(** ** Errors, events, calls *)

Inductive Error : Type :=
| UnauthorizedAgent
| UnauthorizedUser
| InvalidAddress
| InvalidAmount
| InvalidInterval
| SubscriptionNotActive
| SubscriptionAlreadyExists
| PaymentNotDue
| NoBalanceToWithdraw
| TransferFailed
| EscrowAlreadyExists
| EscrowAlreadyReleased
| FeeTooHigh                    (* require(newFee <= 1000, "Fee cannot exceed 10%") *)
| ReentrancyGuardReentrantCall  (* ReentrancyGuard *)
| OwnableUnauthorizedAccount    (* Ownable *)
| OwnableInvalidOwner           (* Ownable *)
| Panic                         (* checked uint256 arithmetic, Solidity >= 0.8 *)
| TokenReverted.                (* a revert inside the token bubbles up *)

Inductive Event : Type :=
| SubscriptionCreated (subscriptionId : bytes32) (subscriber creator : address)
    (amount interval : uint256)
| SubscriptionPaymentProcessed (subscriptionId : bytes32)
    (subscriber creator : address) (amount nextPaymentDue : uint256)
| SubscriptionCancelled (subscriptionId : bytes32) (subscriber creator : address)
| TipSent (from to : address) (amount : uint256) (contentId : string)
| MicropaymentEscrowed (escrowId : bytes32) (payer creator : address)
    (amount : uint256) (contentId : string)
| MicropaymentReleased (escrowId : bytes32) (creator : address) (amount : uint256)
| CreatorWithdrawal (creator : address) (amount : uint256)
| PlatformFeeUpdated (oldFee newFee : uint256)
| AgentWalletUpdated (oldAgent newAgent : address)
| OwnershipTransferred (previousOwner newOwner : address).

(** The external, state-mutating functions of the contract (its own and
    the two it inherits from Ownable). *)
Inductive Call : Type :=
| SetAgentWallet (newAgent : address)
| CreateSubscription (subscriber creator : address) (amount interval : uint256)
| ProcessSubscriptionPayment (subscriptionId : bytes32)
| CancelSubscription (subscriptionId : bytes32)
| SendTip (user creator : address) (amount : uint256) (contentId : string)
| CreateMicropaymentEscrow (creator : address) (amount : uint256) (contentId : string)
| ReleaseMicropayment (escrowId : bytes32)
| WithdrawCreatorBalance
| UpdatePlatformFee (newFee : uint256)
| WithdrawPlatformFees (amount : uint256)
| TransferOwnership (newOwner : address)
| RenounceOwnership.

(** The two IERC20 functions the contract calls on [usdcToken]. *)
Inductive TokenCall : Type :=
| TransferFrom (from to : address) (amount : uint256)
| Transfer (to : address) (amount : uint256).

(** What a call returns to its caller. *)
Inductive Result : Type :=
| Success (ret : option bytes32)
| Failure (e : Error).

(** ** Storage *)

Record State : Type := mkState {
  owner : address;                                  (* Ownable._owner *)
  entered : bool;                                   (* ReentrancyGuard._status == ENTERED *)
  agentWallet : address;
  platformFee : uint256;
  subscriptions : gmap N Subscription.t;
  userSubscriptions : gmap N (list N);
  creatorSubscriptions : gmap N (list N);
  escrows : gmap N Escrow.t;
  creatorBalances : gmap N N;
  totalTipsReceived : gmap N N;
  events : list Event                               (* the log, oldest first *)
}.

Definition set_owner (v : address) (s : State) : State :=
  mkState v (entered s) (agentWallet s) (platformFee s) (subscriptions s)
    (userSubscriptions s) (creatorSubscriptions s) (escrows s)
    (creatorBalances s) (totalTipsReceived s) (events s).
Definition set_entered (v : bool) (s : State) : State :=
  mkState (owner s) v (agentWallet s) (platformFee s) (subscriptions s)
    (userSubscriptions s) (creatorSubscriptions s) (escrows s)
    (creatorBalances s) (totalTipsReceived s) (events s).
Definition set_agentWallet (v : address) (s : State) : State :=
  mkState (owner s) (entered s) v (platformFee s) (subscriptions s)
    (userSubscriptions s) (creatorSubscriptions s) (escrows s)
    (creatorBalances s) (totalTipsReceived s) (events s).
Definition set_platformFee (v : uint256) (s : State) : State :=
  mkState (owner s) (entered s) (agentWallet s) v (subscriptions s)
    (userSubscriptions s) (creatorSubscriptions s) (escrows s)
    (creatorBalances s) (totalTipsReceived s) (events s).
Definition set_subscriptions (v : gmap N Subscription.t) (s : State) : State :=
  mkState (owner s) (entered s) (agentWallet s) (platformFee s) v
    (userSubscriptions s) (creatorSubscriptions s) (escrows s)
    (creatorBalances s) (totalTipsReceived s) (events s).
Definition set_userSubscriptions (v : gmap N (list N)) (s : State) : State :=
  mkState (owner s) (entered s) (agentWallet s) (platformFee s) (subscriptions s)
    v (creatorSubscriptions s) (escrows s)
    (creatorBalances s) (totalTipsReceived s) (events s).
Definition set_creatorSubscriptions (v : gmap N (list N)) (s : State) : State :=
  mkState (owner s) (entered s) (agentWallet s) (platformFee s) (subscriptions s)
    (userSubscriptions s) v (escrows s)
    (creatorBalances s) (totalTipsReceived s) (events s).
Definition set_escrows (v : gmap N Escrow.t) (s : State) : State :=
  mkState (owner s) (entered s) (agentWallet s) (platformFee s) (subscriptions s)
    (userSubscriptions s) (creatorSubscriptions s) v
    (creatorBalances s) (totalTipsReceived s) (events s).
Definition set_creatorBalances (v : gmap N N) (s : State) : State :=
  mkState (owner s) (entered s) (agentWallet s) (platformFee s) (subscriptions s)
    (userSubscriptions s) (creatorSubscriptions s) (escrows s)
    v (totalTipsReceived s) (events s).
Definition set_totalTipsReceived (v : gmap N N) (s : State) : State :=
  mkState (owner s) (entered s) (agentWallet s) (platformFee s) (subscriptions s)
    (userSubscriptions s) (creatorSubscriptions s) (escrows s)
    (creatorBalances s) v (events s).
Definition set_events (v : list Event) (s : State) : State :=
  mkState (owner s) (entered s) (agentWallet s) (platformFee s) (subscriptions s)
    (userSubscriptions s) (creatorSubscriptions s) (escrows s)
    (creatorBalances s) (totalTipsReceived s) v.

(** Reading a mapping: a key never written reads as the zero value. *)
Definition subscriptionAt (s : State) (id : bytes32) : Subscription.t :=
  default Subscription.zero (subscriptions s !! id).
Definition escrowAt (s : State) (id : bytes32) : Escrow.t :=
  default Escrow.zero (escrows s !! id).
Definition balanceOf (s : State) (a : address) : uint256 :=
  default 0 (creatorBalances s !! a).
Definition tipsOf (s : State) (a : address) : uint256 :=
  default 0 (totalTipsReceived s !! a).
Definition idsOf (m : gmap N (list N)) (a : address) : list N :=
  default [] (m !! a).

(** ** The state-and-revert monad

    A body either finishes with a value and a new storage, or reverts; a
    revert carries no storage because the EVM discards every write of the
    reverted frame. *)

Inductive Outcome (A : Type) : Type :=
| Done (a : A) (st : State)
| Reverted (e : Error).
Arguments Done {A} a st.
Arguments Reverted {A} e.

Definition M (A : Type) : Type := State -> Outcome A.

Definition ret {A} (a : A) : M A := fun st => Done a st.
Definition bind {A B} (m : M A) (k : A -> M B) : M B :=
  fun st => match m st with
            | Done a st' => k a st'
            | Reverted e => Reverted e
            end.
Definition revertIf (c : bool) (e : Error) : M unit :=
  fun st => if c then Reverted e else Done tt st.
Definition sload {A} (f : State -> A) : M A := fun st => Done (f st) st.
Definition sstore (f : State -> State) : M unit := fun st => Done tt (f st).
Definition emit (ev : Event) : M unit :=
  sstore (fun st => set_events (events st ++ [ev]) st).

Notation "x <- m ;; k" := (bind m (fun x => k))
  (at level 100, m at next level, right associativity).
Notation "m ;; k" := (bind m (fun _ => k))
  (at level 100, right associativity).

(** Checked [uint256] arithmetic: overflow and underflow revert. *)
Definition checkedAdd (a b : uint256) : M uint256 :=
  fun st => if a + b <=? UINT256_MAX then Done (a + b) st else Reverted Panic.
Definition checkedMul (a b : uint256) : M uint256 :=
  fun st => if a * b <=? UINT256_MAX then Done (a * b) st else Reverted Panic.
Definition checkedSub (a b : uint256) : M uint256 :=
  fun st => if b <=? a then Done (a - b) st else Reverted Panic.

(** Writes to one struct field or one mapping entry. *)
Definition updateSubscription (id : bytes32) (f : Subscription.t -> Subscription.t) : M unit :=
  sstore (fun st => set_subscriptions (<[id := f (subscriptionAt st id)]> (subscriptions st)) st).
Definition updateEscrow (id : bytes32) (f : Escrow.t -> Escrow.t) : M unit :=
  sstore (fun st => set_escrows (<[id := f (escrowAt st id)]> (escrows st)) st).
Definition setBalance (a : address) (v : uint256) : M unit :=
  sstore (fun st => set_creatorBalances (<[a := v]> (creatorBalances st)) st).

(** [creatorBalances[a] += v] *)
Definition creditBalance (a : address) (v : uint256) : M unit :=
  old <- sload (fun st => balanceOf st a) ;;
  new <- checkedAdd old v ;;
  setBalance a new.

(** [totalTipsReceived[a] += v] *)
Definition creditTips (a : address) (v : uint256) : M unit :=
  old <- sload (fun st => tipsOf st a) ;;
  new <- checkedAdd old v ;;
  sstore (fun st => set_totalTipsReceived (<[a := new]> (totalTipsReceived st)) st).

(** The two lines every payment repeats:
    [platformCut = (amount * platformFee) / FEE_DENOMINATOR;
     creatorAmount = amount - platformCut]. *)
Definition feeSplit (amount : uint256) : M (uint256 * uint256) :=
  fee <- sload platformFee ;;
  prod <- checkedMul amount fee ;;
  let platformCut := prod / FEE_DENOMINATOR in
  creatorAmount <- checkedSub amount platformCut ;;
  ret (platformCut, creatorAmount).

(** ** The contract *)

(** What the token does when called: it returns a boolean or reverts
    ([None]), and the storage of the ledger may have changed meanwhile,
    through calls back into the ledger. *)
Definition Oracle : Type := TokenCall -> State -> option bool * State.

(** What the contract takes from the chain it is deployed on: its own
    address and the hash that makes identifiers. *)
Class Chain : Type := {
  (** [address(this)] *)
  this : address;
  (** [keccak256(abi.encodePacked(subscriber, creator, block.timestamp, amount))] *)
  subscriptionIdOf : address -> address -> uint256 -> uint256 -> bytes32;
  (** [keccak256(abi.encodePacked(msg.sender, creator, contentId, block.timestamp))] *)
  escrowIdOf : address -> address -> string -> uint256 -> bytes32
}.

Section Contract.

Context {chain : Chain}.

Section Body.

(** The token as the running call sees it. *)
Variable usdcToken : Oracle.

(** [block.timestamp] and [msg.sender] of the running call. *)
Variable timestamp : uint256.
Variable sender : address.

(** A call of [usdcToken.transferFrom] or [usdcToken.transfer]. *)
Definition callToken (req : TokenCall) : M bool :=
  fun st => match usdcToken req st with
            | (Some b, st') => Done b st'
            | (None, _) => Reverted TokenReverted
            end.

(** Modelled from the spec: the [onlyOwner] modifier of the imported
    Ownable contract, whose source is not in the repository: the call
    fails unless the caller is the Owner. *)
Definition onlyOwner {A} (body : M A) : M A :=
  fun st => if sender =? owner st then body st
            else Reverted OwnableUnauthorizedAccount.

(** [modifier onlyAgent] *)
Definition onlyAgent {A} (body : M A) : M A :=
  fun st => if sender =? agentWallet st then body st
            else Reverted UnauthorizedAgent.

(** Modelled from the spec: the [nonReentrant] modifier of the imported
    ReentrancyGuard contract, whose source is not in the repository: a
    "currently executing" flag for the whole ledger, set on entry,
    cleared on exit, and a nested entry while it is set is rejected. *)
Definition nonReentrant {A} (body : M A) : M A :=
  fun st => if entered st then Reverted ReentrancyGuardReentrantCall
            else match body (set_entered true st) with
                 | Done a st' => Done a (set_entered false st')
                 | Reverted e => Reverted e
                 end.

Definition setAgentWallet (_newAgent : address) : M unit :=
  onlyOwner (
    revertIf (_newAgent =? 0) InvalidAddress ;;
    oldAgent <- sload agentWallet ;;
    sstore (set_agentWallet _newAgent) ;;
    emit (AgentWalletUpdated oldAgent _newAgent)).

Definition createSubscription (subscriber creator : address)
    (amount interval : uint256) : M bytes32 :=
  onlyAgent (nonReentrant (
    revertIf (creator =? 0) InvalidAddress ;;
    revertIf (subscriber =? 0) InvalidAddress ;;
    revertIf (amount =? 0) InvalidAmount ;;
    revertIf (interval <? ONE_DAY) InvalidInterval ;;
    let subscriptionId := subscriptionIdOf subscriber creator timestamp amount in
    existing <- sload (fun st => subscriptionAt st subscriptionId) ;;
    revertIf (negb (Subscription.subscriber existing =? 0)) SubscriptionAlreadyExists ;;
    cuts <- feeSplit amount ;;
    ok <- callToken (TransferFrom subscriber this amount) ;;
    revertIf (negb ok) TransferFailed ;;
    creditBalance creator (snd cuts) ;;
    due <- checkedAdd timestamp interval ;;
    updateSubscription subscriptionId (fun _ =>
      Subscription.mk subscriber creator amount interval due true amount 1) ;;
    sstore (fun st => set_userSubscriptions
      (<[subscriber := idsOf (userSubscriptions st) subscriber ++ [subscriptionId]]>
         (userSubscriptions st)) st) ;;
    sstore (fun st => set_creatorSubscriptions
      (<[creator := idsOf (creatorSubscriptions st) creator ++ [subscriptionId]]>
         (creatorSubscriptions st)) st) ;;
    emit (SubscriptionCreated subscriptionId subscriber creator amount interval) ;;
    emit (SubscriptionPaymentProcessed subscriptionId subscriber creator amount due) ;;
    ret subscriptionId)).

(** [sub] is a storage pointer: every [sub.field] reads the storage as
    it is at that moment. *)
Definition processSubscriptionPayment (subscriptionId : bytes32) : M unit :=
  onlyAgent (nonReentrant (
    sub <- sload (fun st => subscriptionAt st subscriptionId) ;;
    revertIf (negb (Subscription.active sub)) SubscriptionNotActive ;;
    revertIf (timestamp <? Subscription.nextPaymentDue sub) PaymentNotDue ;;
    cuts <- feeSplit (Subscription.amount sub) ;;
    ok <- callToken (TransferFrom (Subscription.subscriber sub) this
                       (Subscription.amount sub)) ;;
    revertIf (negb ok) TransferFailed ;;
    sub <- sload (fun st => subscriptionAt st subscriptionId) ;;
    creditBalance (Subscription.creator sub) (snd cuts) ;;
    due <- checkedAdd timestamp (Subscription.interval sub) ;;
    updateSubscription subscriptionId (Subscription.set_nextPaymentDue due) ;;
    paid <- checkedAdd (Subscription.totalPaid sub) (Subscription.amount sub) ;;
    updateSubscription subscriptionId (Subscription.set_totalPaid paid) ;;
    count <- checkedAdd (Subscription.paymentsCount sub) 1 ;;
    updateSubscription subscriptionId (Subscription.set_paymentsCount count) ;;
    emit (SubscriptionPaymentProcessed subscriptionId (Subscription.subscriber sub)
            (Subscription.creator sub) (Subscription.amount sub) due))).

Definition cancelSubscription (subscriptionId : bytes32) : M unit :=
  sub <- sload (fun st => subscriptionAt st subscriptionId) ;;
  own <- sload owner ;;
  revertIf (negb (sender =? Subscription.subscriber sub) && negb (sender =? own))
    UnauthorizedUser ;;
  revertIf (negb (Subscription.active sub)) SubscriptionNotActive ;;
  updateSubscription subscriptionId (Subscription.set_active false) ;;
  emit (SubscriptionCancelled subscriptionId (Subscription.subscriber sub)
          (Subscription.creator sub)).

Definition sendTip (user creator : address) (amount : uint256)
    (contentId : string) : M unit :=
  onlyAgent (nonReentrant (
    revertIf (creator =? 0) InvalidAddress ;;
    revertIf (user =? 0) InvalidAddress ;;
    revertIf (amount =? 0) InvalidAmount ;;
    cuts <- feeSplit amount ;;
    ok <- callToken (TransferFrom user this amount) ;;
    revertIf (negb ok) TransferFailed ;;
    creditBalance creator (snd cuts) ;;
    creditTips creator amount ;;
    emit (TipSent user creator amount contentId))).

Definition createMicropaymentEscrow (creator : address) (amount : uint256)
    (contentId : string) : M bytes32 :=
  nonReentrant (
    revertIf (creator =? 0) InvalidAddress ;;
    revertIf (amount =? 0) InvalidAmount ;;
    let escrowId := escrowIdOf sender creator contentId timestamp in
    existing <- sload (fun st => escrowAt st escrowId) ;;
    revertIf (negb (Escrow.payer existing =? 0)) EscrowAlreadyExists ;;
    ok <- callToken (TransferFrom sender this amount) ;;
    revertIf (negb ok) TransferFailed ;;
    updateEscrow escrowId (fun _ =>
      Escrow.mk sender creator amount timestamp false contentId) ;;
    emit (MicropaymentEscrowed escrowId sender creator amount contentId) ;;
    ret escrowId).

Definition releaseMicropayment (escrowId : bytes32) : M unit :=
  nonReentrant (
    escrow <- sload (fun st => escrowAt st escrowId) ;;
    own <- sload owner ;;
    revertIf (negb (sender =? Escrow.payer escrow) && negb (sender =? own))
      UnauthorizedUser ;;
    revertIf (Escrow.released escrow) EscrowAlreadyReleased ;;
    cuts <- feeSplit (Escrow.amount escrow) ;;
    updateEscrow escrowId (Escrow.set_released true) ;;
    creditBalance (Escrow.creator escrow) (snd cuts) ;;
    emit (MicropaymentReleased escrowId (Escrow.creator escrow) (snd cuts))).

Definition withdrawCreatorBalance : M unit :=
  nonReentrant (
    balance <- sload (fun st => balanceOf st sender) ;;
    revertIf (balance =? 0) NoBalanceToWithdraw ;;
    setBalance sender 0 ;;
    ok <- callToken (Transfer sender balance) ;;
    revertIf (negb ok) TransferFailed ;;
    emit (CreatorWithdrawal sender balance)).

Definition updatePlatformFee (newFee : uint256) : M unit :=
  onlyOwner (
    revertIf (negb (newFee <=? 1000)) FeeTooHigh ;;
    oldFee <- sload platformFee ;;
    sstore (set_platformFee newFee) ;;
    emit (PlatformFeeUpdated oldFee newFee)).

Definition withdrawPlatformFees (amount : uint256) : M unit :=
  onlyOwner (nonReentrant (
    own <- sload owner ;;
    ok <- callToken (Transfer own amount) ;;
    revertIf (negb ok) TransferFailed)).

(** Modelled from the spec: [transferOwnership] and [renounceOwnership]
    of the imported Ownable contract, whose source is not in the
    repository: the Owner role is transferable by the current owner. *)
Definition transferOwnership (newOwner : address) : M unit :=
  onlyOwner (
    revertIf (newOwner =? 0) OwnableInvalidOwner ;;
    old <- sload owner ;;
    sstore (set_owner newOwner) ;;
    emit (OwnershipTransferred old newOwner)).

Definition renounceOwnership : M unit :=
  onlyOwner (
    old <- sload owner ;;
    sstore (set_owner 0) ;;
    emit (OwnershipTransferred old 0)).

(** The function selector: the body a call runs. *)
Definition dispatch (c : Call) : M (option bytes32) :=
  match c with
  | SetAgentWallet a => setAgentWallet a ;; ret None
  | CreateSubscription s c a i => id <- createSubscription s c a i ;; ret (Some id)
  | ProcessSubscriptionPayment id => processSubscriptionPayment id ;; ret None
  | CancelSubscription id => cancelSubscription id ;; ret None
  | SendTip u c a cid => sendTip u c a cid ;; ret None
  | CreateMicropaymentEscrow c a cid =>
      id <- createMicropaymentEscrow c a cid ;; ret (Some id)
  | ReleaseMicropayment id => releaseMicropayment id ;; ret None
  | WithdrawCreatorBalance => withdrawCreatorBalance ;; ret None
  | UpdatePlatformFee f => updatePlatformFee f ;; ret None
  | WithdrawPlatformFees a => withdrawPlatformFees a ;; ret None
  | TransferOwnership o => transferOwnership o ;; ret None
  | RenounceOwnership => renounceOwnership ;; ret None
  end.

(** One message call: the body runs, and a revert restores the storage
    (and the log) the call started from. *)
Definition callWith (c : Call) (st : State) : Result * State :=
  match dispatch c st with
  | Done r st' => (Success r, st')
  | Reverted e => (Failure e, st)
  end.

(** [isPaymentDue], a view. *)
Definition isPaymentDue (subscriptionId : bytes32) (st : State) : bool :=
  Subscription.active (subscriptionAt st subscriptionId)
  && (Subscription.nextPaymentDue (subscriptionAt st subscriptionId) <=? timestamp).

End Body.

(** ** The token as an adversary

    During [transfer] or [transferFrom] the token contract may call any
    function of the ledger, any number of times, as any account that is
    a contract, look at what came back, and then return or revert. *)
Inductive Token : Type :=
| TReturn (ok : bool)
| TRevert
| TCallback (caller : address) (c : Call) (inner : Token) (k : Result -> Token).

(** Running the token's behaviour against the storage. [inner] is how the
    token behaves if the nested call reaches the token again. *)
Fixpoint interact (timestamp : uint256) (tok : Token) (req : TokenCall)
    (st : State) {struct tok} : option bool * State :=
  match tok with
  | TReturn ok => (Some ok, st)
  | TRevert => (None, st)
  | TCallback caller c inner k =>
      let '(r, st') := callWith (interact timestamp inner) timestamp caller c st in
      interact timestamp (k r) req st'
  end.

(** A message call to the ledger at time [timestamp] from [sender], with
    [tok] the behaviour of the token. *)
Definition call (timestamp : uint256) (sender : address) (c : Call)
    (tok : Token) (st : State) : Result * State :=
  callWith (interact timestamp tok) timestamp sender c st.

(** [constructor(address _usdcToken, address _agentWallet) Ownable(msg.sender)] *)
Definition constructor (deployer _usdcToken _agentWallet : address) : option State :=
  if deployer =? 0 then None
  else if _usdcToken =? 0 then None
  else if _agentWallet =? 0 then None
  else Some (mkState deployer false _agentWallet 250 ∅ ∅ ∅ ∅ ∅ ∅
               [OwnershipTransferred 0 deployer; AgentWalletUpdated 0 _agentWallet]).

(** The states the ledger can be in between transactions. *)
Inductive reachable : State -> Prop :=
| reachable_init deployer token agent st :
    constructor deployer token agent = Some st -> reachable st
| reachable_call st timestamp sender c tok :
    reachable st -> reachable (snd (call timestamp sender c tok st)).

End Contract.

(** ** Traces of transactions *)

Record Tx : Type := mkTx {
  tx_timestamp : uint256;
  tx_sender : address;
  tx_call : Call;
  tx_token : Token
}.

Section Traces.

Context {chain : Chain}.

Definition step (tx : Tx) (st : State) : Result * State :=
  call (tx_timestamp tx) (tx_sender tx) (tx_call tx) (tx_token tx) st.

(** The storage after a sequence of transactions. *)
Fixpoint run (txs : list Tx) (st : State) : State :=
  match txs with
  | [] => st
  | tx :: rest => run rest (snd (step tx st))
  end.

Definition succeeded (r : Result) : bool :=
  match r with Success _ => true | Failure _ => false end.

(** How many transactions of a trace are successful
    [processSubscriptionPayment(id)] calls. *)
Fixpoint processedPayments (id : bytes32) (txs : list Tx) (st : State) : N :=
  match txs with
  | [] => 0
  | tx :: rest =>
      (match tx_call tx with
       | ProcessSubscriptionPayment id' =>
           if (id' =? id) && succeeded (fst (step tx st)) then 1 else 0
       | _ => 0
       end) + processedPayments id rest (snd (step tx st))
  end.

(** The platform cut a call computes, for the calls that settle a payment. *)
Definition platformCutOf (c : Call) (st : State) : uint256 :=
  match c with
  | CreateSubscription _ _ a _ => a * platformFee st / FEE_DENOMINATOR
  | ProcessSubscriptionPayment id =>
      Subscription.amount (subscriptionAt st id) * platformFee st / FEE_DENOMINATOR
  | SendTip _ _ a _ => a * platformFee st / FEE_DENOMINATOR
  | ReleaseMicropayment id =>
      Escrow.amount (escrowAt st id) * platformFee st / FEE_DENOMINATOR
  | _ => 0
  end.

(** The platform-fee accumulator as the specification words it: the sum
    of the platform cuts of the settled payments, less what
    [withdrawPlatformFees] has paid out. The contract stores no such
    number; this is the quantity the specification talks about, computed
    from the history. *)
Fixpoint specFeeAccumulator (txs : list Tx) (st : State) (acc : N) : N :=
  match txs with
  | [] => acc
  | tx :: rest =>
      let '(r, st') := step tx st in
      let acc' :=
        if succeeded r then
          match tx_call tx with
          | WithdrawPlatformFees a => acc - a
          | c => acc + platformCutOf c st
          end
        else acc in
      specFeeAccumulator rest st' acc'
  end.

End Traces.

(** The entry points that carry the [nonReentrant] modifier. *)
Definition guarded (c : Call) : bool :=
  match c with
  | CreateSubscription _ _ _ _ | ProcessSubscriptionPayment _ | SendTip _ _ _ _
  | CreateMicropaymentEscrow _ _ _ | ReleaseMicropayment _
  | WithdrawCreatorBalance | WithdrawPlatformFees _ => true
  | SetAgentWallet _ | CancelSubscription _ | UpdatePlatformFee _
  | TransferOwnership _ | RenounceOwnership => false
  end.

(** The entry points whose body calls the token. *)
Definition callsToken (c : Call) : bool :=
  match c with
  | CreateSubscription _ _ _ _ | ProcessSubscriptionPayment _ | SendTip _ _ _ _
  | CreateMicropaymentEscrow _ _ _ | WithdrawCreatorBalance
  | WithdrawPlatformFees _ => true
  | _ => false
  end.

(** The error a guarded entry point gives when it is entered while the
    guard is set: the role modifier written before [nonReentrant] runs
    first. *)
Definition nestedRejection (sender : address) (c : Call) (st : State) : Error :=
  match c with
  | CreateSubscription _ _ _ _ | ProcessSubscriptionPayment _ | SendTip _ _ _ _ =>
      if sender =? agentWallet st then ReentrancyGuardReentrantCall else UnauthorizedAgent
  | WithdrawPlatformFees _ =>
      if sender =? owner st then ReentrancyGuardReentrantCall
      else OwnableUnauthorizedAccount
  | _ => ReentrancyGuardReentrantCall
  end.

(** What a call made while the guard is set can change: the roles, the fee
    rate, the log, and the [active] flag of subscriptions, downwards. *)
Definition subFrame (s s' : Subscription.t) : Prop :=
  Subscription.set_active false s' = Subscription.set_active false s
  /\ (Subscription.active s' = true -> Subscription.active s = true).

Definition nestedFrame (st st' : State) : Prop :=
  entered st' = entered st
  /\ creatorBalances st' = creatorBalances st
  /\ escrows st' = escrows st
  /\ totalTipsReceived st' = totalTipsReceived st
  /\ userSubscriptions st' = userSubscriptions st
  /\ creatorSubscriptions st' = creatorSubscriptions st
  /\ (forall id, subFrame (subscriptionAt st id) (subscriptionAt st' id)).

(** The gross amount and the creator of the payment a call settles:
    subscription creation, due-payment processing, tip, escrow release. *)
Definition settledPayment (c : Call) (st : State) : option (uint256 * address) :=
  match c with
  | CreateSubscription _ cr a _ => Some (a, cr)
  | ProcessSubscriptionPayment id =>
      Some (Subscription.amount (subscriptionAt st id),
            Subscription.creator (subscriptionAt st id))
  | SendTip _ cr a _ => Some (a, cr)
  | ReleaseMicropayment id =>
      Some (Escrow.amount (escrowAt st id), Escrow.creator (escrowAt st id))
  | _ => None
  end.

(** Hash functions and a deployed ledger to run the contract on: owner 1,
    agent 2, token 50, the ledger itself at 99. *)
Definition sampleSubscriptionId (subscriber creator timestamp amount : N) : N :=
  subscriber + 1000 * creator + 1000000 * timestamp + amount.
Definition sampleEscrowId (payer creator : N) (contentId : string) (timestamp : N) : N :=
  payer + 1000 * creator + 1000000 * timestamp + N.of_nat (String.length contentId).
Instance sampleChain : Chain := {
  this := 99;
  subscriptionIdOf := sampleSubscriptionId;
  escrowIdOf := sampleEscrowId
}.
Definition sampleCall : N -> N -> Call -> Token -> State -> Result * State :=
  call (chain := sampleChain).
Definition deployed : State :=
  mkState 1 false 2 250 ∅ ∅ ∅ ∅ ∅ ∅
    [OwnershipTransferred 0 1; AgentWalletUpdated 0 2].

(** Subscriber 7 subscribes to creator 9 for 5.00 USDC every 30 days, at
    time 100. *)
Definition subscribed : State :=
  snd (sampleCall 100 2 (CreateSubscription 7 9 5000000 2592000) (TReturn true) deployed).
Definition sampleSub : N := sampleSubscriptionId 7 9 100 5000000.

(** The Agent charges the subscription at time 2600000, which is 7900
    seconds after it fell due at 2592100. *)
Definition paidLate : State :=
  snd (sampleCall 2600000 2 (ProcessSubscriptionPayment sampleSub) (TReturn true)
         subscribed).

(** One tip of 1000 from user 7 to creator 9, on the fresh ledger. *)
Definition tipTrace : list Tx :=
  [mkTx 200 2 (SendTip 7 9 1000 "post") (TReturn true)].
Definition tipped : State :=
  run tipTrace deployed.

(** Payer 7 escrows 1.00 USDC for creator 9 against "content-1" at time 300. *)
Definition escrowed : State :=
  snd (sampleCall 300 7 (CreateMicropaymentEscrow 9 1000000 "content-1") (TReturn true)
         deployed).
Definition sampleEscrow : N := sampleEscrowId 7 9 "content-1" 300.

(** A token that, during a transfer, has subscriber 7 cancel the sample
    subscription, and reverts unless that nested call succeeded. *)
Definition reenteringToken : Token :=
  TCallback 7 (CancelSubscription sampleSub) TRevert
    (fun r => match r with Success _ => TReturn true | Failure _ => TRevert end).

(** A token that, during a transfer, calls back into withdrawCreatorBalance
    as creator 9 and then returns true whatever came back. *)
Definition withdrawingToken : Token :=
  TCallback 9 WithdrawCreatorBalance (TReturn true) (fun _ => TReturn true).

(** [getUserSubscriptions] and [getCreatorSubscriptions], two views. *)
Definition getUserSubscriptions (user : address) (st : State) : list bytes32 :=
  idsOf (userSubscriptions st) user.
Definition getCreatorSubscriptions (creator : address) (st : State) : list bytes32 :=
  idsOf (creatorSubscriptions st) creator.


(** The two index mappings against the records. *)
Definition indexed (st : State) : Prop :=
  (forall u id, id ∈ getUserSubscriptions u st
                <-> u <> 0 /\ Subscription.subscriber (subscriptionAt st id) = u)
  /\ (forall c id, id ∈ getCreatorSubscriptions c st
                   <-> Subscription.subscriber (subscriptionAt st id) <> 0
                       /\ Subscription.creator (subscriptionAt st id) = c)
  /\ (forall u, NoDup (getUserSubscriptions u st))
  /\ (forall c, NoDup (getCreatorSubscriptions c st)).

(** The tips a creator received according to the log. *)
Fixpoint tipTotal (creator : address) (log : list Event) : N :=
  match log with
  | [] => 0
  | TipSent _ to amount _ :: rest =>
      (if to =? creator then amount else 0) + tipTotal creator rest
  | _ :: rest => tipTotal creator rest
  end.

(** The calls only the Agent may make. *)
Definition agentOnly (c : Call) : bool :=
  match c with
  | CreateSubscription _ _ _ _ | ProcessSubscriptionPayment _ | SendTip _ _ _ _ => true
  | _ => false
  end.

(** Subscriber 7 cancels the sample subscription at time 200. *)
Definition cancelled : State :=
  snd (sampleCall 200 7 (CancelSubscription sampleSub) (TReturn true) subscribed).

(** A late attempt to charge the sample subscription. *)
Definition lateCharge : list Tx :=
  [mkTx 2600000 2 (ProcessSubscriptionPayment sampleSub) (TReturn true)].

(** The Owner rotates the Agent from 2 to 3 at time 150. *)
Definition rotated : State :=
  snd (sampleCall 150 1 (SetAgentWallet 3) (TReturn true) subscribed).


(** The tip counters agree with the log. *)
Definition tipsMatchLog (st : State) : Prop :=
  forall c, tipsOf st c = tipTotal c (events st).


(** * SubscriptionTipping: the subscription and tipping contract of hello-arc

    The second contract of the repository ([hello-arc/src/Subscription.sol]):
    fixed 30-day subscriptions paid from the user straight to the creator,
    tips, a relayer whitelist that records payments made elsewhere, and a
    minimal Ownable. It has no reentrancy guard, and it calls the token
    with a low-level call. *)

Module SubscriptionTipping.

(** [uint256 public constant PAYMENT_INTERVAL = 30 days] *)
Definition PAYMENT_INTERVAL : N := 2592000.

Record Subscription : Type := mkSubscription {
  amount : uint256;
  nextPayment : uint256;
  active : bool;
  lastPayment : uint256
}.

Definition noSubscription : Subscription := mkSubscription 0 0 false 0.

Definition set_amount (v : uint256) (s : Subscription) : Subscription :=
  mkSubscription v (nextPayment s) (active s) (lastPayment s).
Definition set_nextPayment (v : uint256) (s : Subscription) : Subscription :=
  mkSubscription (amount s) v (active s) (lastPayment s).
Definition set_active (v : bool) (s : Subscription) : Subscription :=
  mkSubscription (amount s) (nextPayment s) v (lastPayment s).
Definition set_lastPayment (v : uint256) (s : Subscription) : Subscription :=
  mkSubscription (amount s) (nextPayment s) (active s) v.

(** A failed [require] carries its message. *)
Inductive Error : Type :=
| Require (msg : string)
| Panic             (* checked uint256 arithmetic *)
| DecodeFailure.    (* abi.decode of return data that is not a bool *)

Inductive Event : Type :=
| OwnershipTransferred (previousOwner newOwner : address)
| Subscribed (user creator : address) (amount nextPayment : uint256)
| SubscriptionPaid (user creator : address) (amount timestamp : uint256) (txId : string)
| SubscriptionCancelled (user creator : address) (timestamp : uint256)
| SubscriptionReactivated (user creator : address) (nextPayment : uint256)
| TipSent (from to : address) (amount timestamp : uint256)
| EmergencyWithdraw (owner token : address) (amount : uint256).

Inductive Call : Type :=
| TransferOwnership (newOwner : address)
| Subscribe (creator : address) (amount : uint256)
| CancelSubscription (creator : address)
| ReactivateSubscription (creator : address)
| AddRelayer (r : address)
| RemoveRelayer (r : address)
| ProcessSubscription (user creator : address)
| RecordPayment (user creator : address) (amount : uint256) (txId : string)
| RecordPayments (users creators : list address) (amounts : list uint256)
    (txIds : list string)
| Tip (creator : address) (amount : uint256)
| EmergencyWithdrawCall (tokenAddress : address) (amount : uint256)
| UpdateSubscriptionAmount (creator : address) (newAmount : uint256).

(** The low-level calls [_safeTransferFrom] and [_safeTransfer] make. *)
Inductive TokenCall : Type :=
| TransferFrom (t from to : address) (value : uint256)
| Transfer (t to : address) (value : uint256).

(** What a low-level call gives back: [success] false, or [success] true
    with empty return data, with a boolean, or with something else. *)
Inductive Reply : Type :=
| CallFailed
| ReturnedNothing
| ReturnedBool (b : bool)
| ReturnedOther.

Inductive Result : Type :=
| Success
| Failure (e : Error).

Record State : Type := mkState {
  owner : address;                          (* Ownable._owner *)
  token : address;                          (* immutable *)
  subscriptions : gmap (N * N) Subscription;  (* user => creator => subscription *)
  relayers : gmap N bool;
  events : list Event
}.

Definition set_owner (v : address) (s : State) : State :=
  mkState v (token s) (subscriptions s) (relayers s) (events s).
Definition set_subscriptions (v : gmap (N * N) Subscription) (s : State) : State :=
  mkState (owner s) (token s) v (relayers s) (events s).
Definition set_relayers (v : gmap N bool) (s : State) : State :=
  mkState (owner s) (token s) (subscriptions s) v (events s).
Definition set_events (v : list Event) (s : State) : State :=
  mkState (owner s) (token s) (subscriptions s) (relayers s) v.

(** [getSubscription(user, creator)], and [relayers(r)]. *)
Definition getSubscription (user creator : address) (st : State) : Subscription :=
  default noSubscription (subscriptions st !! (user, creator)).
Definition isRelayer (r : address) (st : State) : bool :=
  default false (relayers st !! r).

Inductive Outcome (A : Type) : Type :=
| Done (a : A) (st : State)
| Reverted (e : Error).
Arguments Done {A} a st.
Arguments Reverted {A} e.

Definition M (A : Type) : Type := State -> Outcome A.

Definition ret {A} (a : A) : M A := fun st => Done a st.
Definition bind {A B} (m : M A) (k : A -> M B) : M B :=
  fun st => match m st with
            | Done a st' => k a st'
            | Reverted e => Reverted e
            end.
Definition require (c : bool) (msg : string) : M unit :=
  fun st => if c then Done tt st else Reverted (Require msg).
Definition sload {A} (f : State -> A) : M A := fun st => Done (f st) st.
Definition sstore (f : State -> State) : M unit := fun st => Done tt (f st).
Definition emit (ev : Event) : M unit :=
  sstore (fun st => set_events (events st ++ [ev]) st).
Definition checkedAdd (a b : uint256) : M uint256 :=
  fun st => if a + b <=? UINT256_MAX then Done (a + b) st else Reverted Panic.

Declare Scope tipping_scope.
Notation "x <- m ;; k" := (bind m (fun x => k))
  (at level 100, m at next level, right associativity) : tipping_scope.
Notation "m ;; k" := (bind m (fun _ => k))
  (at level 100, right associativity) : tipping_scope.
Local Open Scope tipping_scope.

(** A write to one field of [subscriptions[user][creator]]. *)
Definition updateSubscription (user creator : address)
    (f : Subscription -> Subscription) : M unit :=
  sstore (fun st =>
    set_subscriptions
      (<[(user, creator) := f (getSubscription user creator st)]> (subscriptions st)) st).

Definition Oracle : Type := TokenCall -> State -> Reply * State.

Section Body.

Variable callAddress : Oracle.
Variable timestamp : uint256.
Variable sender : address.

(** [success && (data.length == 0 || abi.decode(data, (bool)))] under
    [require(..., msg)]. *)
Definition safeCall (req : TokenCall) (msg : string) : M unit :=
  fun st => match callAddress req st with
            | (CallFailed, _) => Reverted (Require msg)
            | (ReturnedNothing, st') => Done tt st'
            | (ReturnedBool true, st') => Done tt st'
            | (ReturnedBool false, _) => Reverted (Require msg)
            | (ReturnedOther, _) => Reverted DecodeFailure
            end.

Definition _safeTransferFrom (t from to : address) (value : uint256) : M unit :=
  safeCall (TransferFrom t from to value) "TRANSFER_FROM_FAILED".

Definition _safeTransfer (t to : address) (value : uint256) : M unit :=
  safeCall (Transfer t to value) "TRANSFER_FAILED".

Definition onlyOwner {A} (body : M A) : M A :=
  own <- sload owner ;;
  require (own =? sender) "Ownable: caller is not the owner" ;;
  body.

Definition transferOwnership (newOwner : address) : M unit :=
  onlyOwner (
    require (negb (newOwner =? 0)) "Ownable: new owner is the zero address" ;;
    old <- sload owner ;;
    emit (OwnershipTransferred old newOwner) ;;
    sstore (set_owner newOwner)).

Definition subscribe (creator : address) (amount : uint256) : M unit :=
  require (negb (creator =? 0)) "invalid creator" ;;
  require (0 <? amount) "amount must be > 0" ;;
  updateSubscription sender creator (set_amount amount) ;;
  updateSubscription sender creator (set_active true) ;;
  updateSubscription sender creator (set_lastPayment 0) ;;
  due <- checkedAdd timestamp PAYMENT_INTERVAL ;;
  updateSubscription sender creator (set_nextPayment due) ;;
  emit (Subscribed sender creator amount due).

Definition cancelSubscription (creator : address) : M unit :=
  s <- sload (getSubscription sender creator) ;;
  require (active s) "subscription not active" ;;
  updateSubscription sender creator (set_active false) ;;
  emit (SubscriptionCancelled sender creator timestamp).

Definition reactivateSubscription (creator : address) : M unit :=
  s <- sload (getSubscription sender creator) ;;
  require (negb (active s)) "subscription already active" ;;
  require (0 <? amount s) "no subscription exists" ;;
  updateSubscription sender creator (set_active true) ;;
  due <- checkedAdd timestamp PAYMENT_INTERVAL ;;
  updateSubscription sender creator (set_nextPayment due) ;;
  emit (SubscriptionReactivated sender creator due).

Definition addRelayer (r : address) : M unit :=
  onlyOwner (
    require (negb (r =? 0)) "invalid relayer" ;;
    sstore (fun st => set_relayers (<[r := true]> (relayers st)) st)).

Definition removeRelayer (r : address) : M unit :=
  onlyOwner (sstore (fun st => set_relayers (<[r := false]> (relayers st)) st)).

(** [s] is a storage pointer: the fields are read when they are used. *)
Definition processSubscription (user creator : address) : M unit :=
  s <- sload (getSubscription user creator) ;;
  require (active s) "subscription not active" ;;
  require (nextPayment s <=? timestamp) "payment not due" ;;
  require (0 <? amount s) "invalid subscription amount" ;;
  tok <- sload token ;;
  _safeTransferFrom tok user creator (amount s) ;;
  updateSubscription user creator (set_lastPayment timestamp) ;;
  s <- sload (getSubscription user creator) ;;
  due <- checkedAdd (nextPayment s) PAYMENT_INTERVAL ;;
  updateSubscription user creator (set_nextPayment due) ;;
  s <- sload (getSubscription user creator) ;;
  emit (SubscriptionPaid user creator (amount s) timestamp "").

Definition authorizedRelayer : M unit :=
  isRel <- sload (isRelayer sender) ;;
  own <- sload owner ;;
  require (isRel || (sender =? own)) "not authorized".

Definition recordPayment (user creator : address) (amount : uint256)
    (txId : string) : M unit :=
  authorizedRelayer ;;
  s <- sload (getSubscription user creator) ;;
  require (active s) "subscription not active" ;;
  require (0 <? SubscriptionTipping.amount s) "invalid subscription amount" ;;
  updateSubscription user creator (set_lastPayment timestamp) ;;
  due <- checkedAdd (nextPayment s) PAYMENT_INTERVAL ;;
  updateSubscription user creator (set_nextPayment due) ;;
  emit (SubscriptionPaid user creator amount timestamp txId).

(** The body of the [for] loop of [recordPayments], over the entries
    [(users[i], creators[i], amounts[i], txIds[i])] in order. *)
Fixpoint recordLoop (entries : list (address * address * uint256 * string)) : M unit :=
  match entries with
  | [] => ret tt
  | (user, creator, amount, txId) :: rest =>
      s <- sload (getSubscription user creator) ;;
      if negb (active s) || (SubscriptionTipping.amount s =? 0) then recordLoop rest
      else
        updateSubscription user creator (set_lastPayment timestamp) ;;
        due <- checkedAdd (nextPayment s) PAYMENT_INTERVAL ;;
        updateSubscription user creator (set_nextPayment due) ;;
        emit (SubscriptionPaid user creator amount timestamp txId) ;;
        recordLoop rest
  end.

(** The four arrays, entry by entry; they have the same length when this
    is used. *)
Fixpoint entriesOf (users creators : list address) (amounts : list uint256)
    (txIds : list string) : list (address * address * uint256 * string) :=
  match users, creators, amounts, txIds with
  | u :: us, c :: cs, a :: az, t :: ts => (u, c, a, t) :: entriesOf us cs az ts
  | _, _, _, _ => []
  end.

Definition recordPayments (users creators : list address) (amounts : list uint256)
    (txIds : list string) : M unit :=
  authorizedRelayer ;;
  let len := length users in
  require (Nat.eqb (length creators) len && Nat.eqb (length amounts) len
           && Nat.eqb (length txIds) len) "array length mismatch" ;;
  recordLoop (entriesOf users creators amounts txIds).

Definition tip (creator : address) (amount : uint256) : M unit :=
  require (negb (creator =? 0)) "invalid creator" ;;
  require (0 <? amount) "amount must be > 0" ;;
  tok <- sload token ;;
  _safeTransferFrom tok sender creator amount ;;
  emit (TipSent sender creator amount timestamp).

Definition emergencyWithdraw (tokenAddress : address) (amount : uint256) : M unit :=
  onlyOwner (
    _safeTransfer tokenAddress sender amount ;;
    emit (EmergencyWithdraw sender tokenAddress amount)).

Definition updateSubscriptionAmount (creator : address) (newAmount : uint256) : M unit :=
  require (0 <? newAmount) "amount must be > 0" ;;
  s <- sload (getSubscription sender creator) ;;
  require (0 <? amount s) "subscription not found" ;;
  updateSubscription sender creator (set_amount newAmount).

Definition dispatch (c : Call) : M unit :=
  match c with
  | TransferOwnership o => transferOwnership o
  | Subscribe c a => subscribe c a
  | CancelSubscription c => cancelSubscription c
  | ReactivateSubscription c => reactivateSubscription c
  | AddRelayer r => addRelayer r
  | RemoveRelayer r => removeRelayer r
  | ProcessSubscription u c => processSubscription u c
  | RecordPayment u c a t => recordPayment u c a t
  | RecordPayments us cs az ts => recordPayments us cs az ts
  | Tip c a => tip c a
  | EmergencyWithdrawCall t a => emergencyWithdraw t a
  | UpdateSubscriptionAmount c a => updateSubscriptionAmount c a
  end.

(** One message call; a revert restores the storage and the log. *)
Definition callWith (c : Call) (st : State) : Result * State :=
  match dispatch c st with
  | Done _ st' => (Success, st')
  | Reverted e => (Failure e, st)
  end.

End Body.

(** The called address as an adversary: it may call back into the
    contract, which has no guard, before it answers. *)
Inductive Token : Type :=
| TReply (r : Reply)
| TCallback (caller : address) (c : Call) (inner : Token) (k : Result -> Token).

Fixpoint interact (timestamp : uint256) (tok : Token) (req : TokenCall)
    (st : State) {struct tok} : Reply * State :=
  match tok with
  | TReply r => (r, st)
  | TCallback caller c inner k =>
      let '(r, st') := callWith (interact timestamp inner) timestamp caller c st in
      interact timestamp (k r) req st'
  end.

Definition call (timestamp : uint256) (sender : address) (c : Call)
    (tok : Token) (st : State) : Result * State :=
  callWith (interact timestamp tok) timestamp sender c st.

(** [constructor(address _token)], with Ownable's constructor before it. *)
Definition constructor (deployer _token : address) : option State :=
  if _token =? 0 then None
  else Some (mkState deployer _token ∅ ∅ [OwnershipTransferred 0 deployer]).

(** The states the contract can be in between transactions. The deployer,
    a [msg.sender], is not the zero address. *)
Inductive reachable : State -> Prop :=
| reachable_init deployer _token st :
    deployer <> 0 -> constructor deployer _token = Some st -> reachable st
| reachable_call st timestamp sender c tok :
    reachable st -> reachable (snd (call timestamp sender c tok st)).

(** The storage after a run of [recordPayment] calls by one relayer at one
    time, one per entry. *)
Definition recordOneByOne (timestamp : uint256) (sender : address)
    (entries : list (address * address * uint256 * string)) (st : State) : State :=
  fold_left
    (fun s '(user, creator, amount, txId) =>
       snd (call timestamp sender (RecordPayment user creator amount txId)
              (TReply CallFailed) s))
    entries st.

(** The storage after processing one subscription at each of the given
    times, with a token that accepts the transfer. *)
Definition processAt (user creator : address) (times : list uint256) (st : State) : State :=
  fold_left
    (fun s t => snd (call t user (ProcessSubscription user creator)
                       (TReply (ReturnedBool true)) s))
    times st.

(** A contract deployed by 1 for token 50, in which user 7 subscribes to
    creator 9 for 5.00 USDC at time 100. *)
Definition deployed : State := mkState 1 50 ∅ ∅ [OwnershipTransferred 0 1].
Definition subscribed : State :=
  snd (call 100 7 (Subscribe 9 5000000) (TReply ReturnedNothing) deployed).


(** The owner whitelists relayer 5 at time 150; the batch relayer 5 then
    records: one payment for the subscription of 7 to 9, one for a
    subscription that does not exist. *)
Definition relayed : State :=
  snd (call 150 1 (AddRelayer 5) (TReply CallFailed) subscribed).
Definition sampleBatch : Call :=
  RecordPayments [7; 8] [9; 9] [5000000; 1] ["tx-1"; "tx-2"].

(** None of the calls the token makes back into the contract, at any
    depth, has [u] as its [msg.sender]. *)
Fixpoint notCalledBy (u : address) (tok : Token) : Prop :=
  match tok with
  | TReply _ => True
  | TCallback caller _ inner k =>
      caller <> u /\ notCalledBy u inner /\ forall r, notCalledBy u (k r)
  end.

(** A token that, asked to transfer, first has 4 process the subscription
    of 7 to 9 and then accepts. *)
Definition processingToken : Token :=
  TCallback 4 (ProcessSubscription 7 9) (TReply (ReturnedBool true))
    (fun _ => TReply (ReturnedBool true)).

End SubscriptionTipping.


(** An oracle that, called while the guard is set, respects the frame. *)
Definition wellBehaved (oracle : Oracle) : Prop :=
  forall req st, entered st = true -> nestedFrame st (snd (oracle req st)).

(** ** Proof machinery *)

Ltac unfold_contract :=
  cbv beta delta [call callWith dispatch setAgentWallet createSubscription
    processSubscriptionPayment cancelSubscription sendTip
    createMicropaymentEscrow releaseMicropayment withdrawCreatorBalance
    updatePlatformFee withdrawPlatformFees transferOwnership renounceOwnership
    onlyOwner onlyAgent nonReentrant feeSplit creditBalance creditTips
    setBalance updateSubscription updateEscrow emit callToken
    checkedAdd checkedMul checkedSub bind ret revertIf sload sstore
    subscriptionAt escrowAt balanceOf tipsOf] in *.

Ltac reduce_state :=
  cbn [owner entered agentWallet platformFee subscriptions userSubscriptions
       creatorSubscriptions escrows creatorBalances totalTipsReceived events
       set_owner set_entered set_agentWallet set_platformFee set_subscriptions
       set_userSubscriptions set_creatorSubscriptions set_escrows
       set_creatorBalances set_totalTipsReceived set_events
       fst snd negb andb] in *.

Ltac case_step :=
  match goal with
  | |- context [if ?c then _ else _] => destruct c eqn:?
  | |- context [match ?o ?r ?s with (_, _) => _ end] =>
      let b := fresh "ok" in let s' := fresh "st" in
      destruct (o r s) as [[[]|] s'] eqn:?
  end.

Ltac read_maps :=
  rewrite ?lookup_insert; repeat case_decide; subst;
  cbn [default from_option id] in *.

Ltac leb_to_le :=
  repeat match goal with
  | H : (_ <=? _) = true |- _ => apply N.leb_le in H
  | H : (_ <=? _) = false |- _ => apply N.leb_gt in H
  | H : (_ <? _) = true |- _ => apply N.ltb_lt in H
  | H : (_ <? _) = false |- _ => apply N.ltb_ge in H
  | H : (_ =? _) = true |- _ => apply N.eqb_eq in H
  | H : (_ =? _) = false |- _ => apply N.eqb_neq in H
  end.

Ltac run_body := unfold_contract; reduce_state; repeat (case_step; reduce_state).

Ltac frame_oracle Hor :=
  repeat match goal with
  | H : ?o ?r ?s = (_, ?s1) |- _ =>
      lazymatch goal with
      | _ : nestedFrame s s1 |- _ => fail
      | _ => let F := fresh "F" in
             assert (F : nestedFrame s s1) by
               (let X := fresh in
                pose proof (Hor r s eq_refl) as X; rewrite H in X; exact X)
      end
  end;
  repeat match goal with
  | F : nestedFrame _ _ |- _ =>
      let E := fresh "Fent" in let B := fresh "Fbal" in let X := fresh "Fesc" in
      let T := fresh "Ftip" in let U := fresh "Fusr" in let C := fresh "Fcre" in
      let S := fresh "Fsub" in
      destruct F as (E & B & X & T & U & C & S)
  end;
  unfold subscriptionAt in *; reduce_state.

Lemma subFrame_refl s : subFrame s s.
Proof. split; auto. Qed.

Lemma subFrame_trans s1 s2 s3 : subFrame s1 s2 -> subFrame s2 s3 -> subFrame s1 s3.
Proof. intros [E1 A1] [E2 A2]. split; [congruence | auto]. Qed.

Lemma subFrame_cancel s : subFrame s (Subscription.set_active false s).
Proof. split; [reflexivity | discriminate]. Qed.

Lemma nestedFrame_refl st : nestedFrame st st.
Proof. repeat split; auto. Qed.

Lemma nestedFrame_trans st1 st2 st3 :
  nestedFrame st1 st2 -> nestedFrame st2 st3 -> nestedFrame st1 st3.
Proof.
  intros (E1 & B1 & X1 & T1 & U1 & C1 & S1) (E2 & B2 & X2 & T2 & U2 & C2 & S2).
  repeat split; try congruence; eapply subFrame_trans; eauto; apply S1 || apply S2.
Qed.

Section Frames.

Context {chain : Chain}.

(** Every failed call leaves the storage as it was. *)
Lemma callWith_failure oracle ts sender c st e st' :
  callWith oracle ts sender c st = (Failure e, st') -> st' = st.
Proof.
  unfold callWith. destruct (dispatch _ _ _ _ _); congruence.
Qed.

(** While the guard is set, a guarded entry point is rejected. *)
Lemma callWith_guarded oracle ts sender c st :
  entered st = true -> guarded c = true ->
  callWith oracle ts sender c st = (Failure (nestedRejection sender c st), st).
Proof.
  intros He Hg. destruct c; try discriminate Hg; unfold nestedRejection;
    run_body; try reflexivity; congruence.
Qed.

(** While the guard is set, a call changes nothing but what [nestedFrame]
    allows. *)
Lemma callWith_entered oracle ts sender c st :
  entered st = true -> nestedFrame st (snd (callWith oracle ts sender c st)).
Proof.
  intros He. destruct (guarded c) eqn:Hg.
  - rewrite callWith_guarded by assumption. apply nestedFrame_refl.
  - destruct c; try discriminate Hg; run_body;
      try apply nestedFrame_refl;
      unfold nestedFrame;
      repeat match goal with |- _ /\ _ => split; [reflexivity |] end;
      intros id'; unfold subscriptionAt; reduce_state;
      try apply subFrame_refl.
    rewrite lookup_insert. case_decide; subst; cbn [default];
      [apply subFrame_cancel | apply subFrame_refl].
Qed.

Lemma interact_entered ts tok req st :
  entered st = true -> nestedFrame st (snd (interact ts tok req st)).
Proof.
  revert st. induction tok as [ok | | caller c inner IHinner k IHk]; intros st He.
  - apply nestedFrame_refl.
  - apply nestedFrame_refl.
  - cbn [interact].
    pose proof (callWith_entered (interact ts inner) ts caller c st He) as Hf.
    destruct (callWith (interact ts inner) ts caller c st) as [r st1].
    cbn [snd] in Hf.
    eapply nestedFrame_trans; [exact Hf |].
    apply IHk. destruct Hf as [E _]. congruence.
Qed.

(** The token, however it behaves, respects the frame. *)
Lemma interact_wellBehaved ts tok : wellBehaved (interact ts tok).
Proof. intros req st He. apply interact_entered, He. Qed.

(** *** Effect of a call on the creator balances *)
Lemma callWith_balance oracle ts sender c st a :
  wellBehaved oracle ->
  let st' := snd (callWith oracle ts sender c st) in
  (c = WithdrawCreatorBalance ->
     (a <> sender -> balanceOf st' a = balanceOf st a)
     /\ (a = sender -> balanceOf st' a = balanceOf st a \/ balanceOf st' a = 0))
  /\ (c <> WithdrawCreatorBalance -> balanceOf st a <= balanceOf st' a).
Proof.
  intros Hor. cbv zeta.
  destruct c; (split; [try discriminate | try congruence]); intros _;
    try split; intros;
    run_body; frame_oracle Hor; try reflexivity; try lia; try (left; reflexivity);
    rewrite ?Fbal; read_maps;
    try reflexivity; try lia; try congruence; auto.
Qed.

Lemma subFrame_fields s s' :
  subFrame s s' ->
  Subscription.subscriber s' = Subscription.subscriber s
  /\ Subscription.creator s' = Subscription.creator s
  /\ Subscription.amount s' = Subscription.amount s
  /\ Subscription.interval s' = Subscription.interval s
  /\ Subscription.nextPaymentDue s' = Subscription.nextPaymentDue s
  /\ Subscription.totalPaid s' = Subscription.totalPaid s
  /\ Subscription.paymentsCount s' = Subscription.paymentsCount s.
Proof.
  destruct s, s'. intros [E _]. unfold Subscription.set_active in E.
  cbn in *. injection E as -> -> -> -> -> -> ->. repeat split.
Qed.

(** *** Effect of a call on one subscription record *)
Lemma callWith_subscription oracle ts sender c st id :
  wellBehaved oracle ->
  let r := fst (callWith oracle ts sender c st) in
  let st' := snd (callWith oracle ts sender c st) in
  let s := subscriptionAt st id in
  let s' := subscriptionAt st' id in
  (subFrame s s' /\ (c = ProcessSubscriptionPayment id -> succeeded r = false))
  \/ (c = ProcessSubscriptionPayment id /\ r = Success None
      /\ sender = agentWallet st /\ entered st = false
      /\ Subscription.active s = true /\ Subscription.nextPaymentDue s <= ts
      /\ s' = Subscription.mk (Subscription.subscriber s) (Subscription.creator s)
               (Subscription.amount s) (Subscription.interval s)
               (ts + Subscription.interval s) (Subscription.active s')
               (Subscription.totalPaid s + Subscription.amount s)
               (Subscription.paymentsCount s + 1))
  \/ (exists sb cr a i,
        c = CreateSubscription sb cr a i /\ id = subscriptionIdOf sb cr ts a
        /\ r = Success (Some id) /\ Subscription.subscriber s = 0
        /\ sb <> 0 /\ a <> 0 /\ ONE_DAY <= i
        /\ s' = Subscription.mk sb cr a i (ts + i) true a 1).
Proof.
  intros Hor. cbv zeta.
  destruct c.
  all: try (left; (split; [| discriminate]);
            run_body; frame_oracle Hor; try apply subFrame_refl;
            try apply Fsub; read_maps;
            solve [apply subFrame_refl | apply subFrame_cancel | apply Fsub]).
  - (* createSubscription *)
    destruct (decide (subscriptionIdOf subscriber creator ts amount = id)) as [<- | Hne].
    + run_body; frame_oracle Hor;
        try (left; split; [apply subFrame_refl | discriminate]).
      right; right. exists subscriber, creator, amount, interval.
      read_maps; try congruence.
      destruct (Subscription.subscriber _ =? 0) eqn:Hz in Heqb5; try discriminate.
      leb_to_le. repeat split; auto.
    + left. split; [| discriminate].
      run_body; frame_oracle Hor; try apply subFrame_refl.
      read_maps; try congruence. apply Fsub.
  - (* processSubscriptionPayment *)
    destruct (decide (subscriptionId = id)) as [-> | Hne].
    + run_body; frame_oracle Hor;
        try (left; split; [apply subFrame_refl | reflexivity]).
      right; left. read_maps; try congruence. leb_to_le.
      destruct (subFrame_fields _ _ (Fsub id)) as (E1 & E2 & E3 & E4 & E5 & E6 & E7).
      destruct (Subscription.active (default Subscription.zero (subscriptions st !! id)));
        try discriminate.
      repeat split; auto.
      unfold Subscription.set_paymentsCount, Subscription.set_totalPaid,
        Subscription.set_nextPaymentDue.
      cbn. rewrite E1, E2, E3, E4, E6, E7. reflexivity.
    + left. split; [| congruence].
      run_body; frame_oracle Hor; try apply subFrame_refl.
      read_maps; try congruence. apply Fsub.
Qed.

(** *** Effect of a call on one escrow record *)
Lemma callWith_escrow oracle ts sender c st id :
  wellBehaved oracle ->
  let r := fst (callWith oracle ts sender c st) in
  let st' := snd (callWith oracle ts sender c st) in
  let e := escrowAt st id in
  let e' := escrowAt st' id in
  e' = e
  \/ (c = ReleaseMicropayment id /\ r = Success None /\ entered st = false
      /\ (sender = Escrow.payer e \/ sender = owner st)
      /\ Escrow.released e = false /\ e' = Escrow.set_released true e)
  \/ (exists cr a cid,
        c = CreateMicropaymentEscrow cr a cid /\ id = escrowIdOf sender cr cid ts
        /\ r = Success (Some id) /\ Escrow.payer e = 0
        /\ e' = Escrow.mk sender cr a ts false cid).
Proof.
  intros Hor. cbv zeta.
  destruct c.
  all: try (left; run_body; frame_oracle Hor; rewrite ?Fesc; reflexivity).
  - (* createMicropaymentEscrow *)
    destruct (decide (escrowIdOf sender creator contentId ts = id)) as [<- | Hne].
    + run_body; frame_oracle Hor; try (left; reflexivity).
      right; right. exists creator, amount, contentId.
      rewrite ?Fesc. read_maps; try congruence.
      destruct (Escrow.payer _ =? 0) eqn:Hz in Heqb2; try discriminate.
      leb_to_le. repeat split; auto.
    + left. run_body; frame_oracle Hor; try reflexivity.
      rewrite ?Fesc. read_maps; congruence.
  - (* releaseMicropayment *)
    destruct (decide (escrowId = id)) as [-> | Hne].
    + run_body; try (left; reflexivity).
      right; left. read_maps; try congruence.
      repeat split; auto.
      destruct (sender =? Escrow.payer _) eqn:E1 in Heqb0; leb_to_le; auto.
      destruct (sender =? owner st) eqn:E2 in Heqb0; leb_to_le; auto.
      discriminate.
    + left. run_body; try reflexivity. read_maps; congruence.
Qed.

End Frames.

(** ** Properties of the ledger *)

Section Properties.

Context {chain : Chain}.


Lemma feeSplit_done A st pc cc st' :
  feeSplit A st = Done (pc, cc) st' ->
  pc = A * platformFee st / FEE_DENOMINATOR /\ cc = A - pc /\ pc + cc = A /\ st' = st.
Proof.
  run_body; intros H; try discriminate H. injection H as <- <- <-.
  leb_to_le. repeat split; lia.
Qed.

Lemma feeSplit_total A st :
  A * platformFee st <= UINT256_MAX -> platformFee st <= FEE_DENOMINATOR ->
  exists pc cc, feeSplit A st = Done (pc, cc) st.
Proof.
  intros Hmul Hfee.
  assert (Hle : A * platformFee st / FEE_DENOMINATOR <= A).
  { apply N.Div0.div_le_upper_bound. unfold FEE_DENOMINATOR in *. nia. }
  apply N.leb_le in Hmul, Hle.
  eexists _, _. unfold feeSplit, bind, sload, checkedMul, checkedSub, ret.
  rewrite Hmul, Hle. reflexivity.
Qed.

(** C1. In every settled payment (subscription creation, due-payment
    processing, tip, escrow release) of gross amount A at the fee rate in
    force, the platform cut is floor(A * feeBps / 10000), the creator cut
    is A minus the platform cut, the two add up to A exactly, and the
    creator is credited the creator cut. *)
Theorem fee_split_conservation :
  (forall A st platformCut creatorCut st',
      feeSplit A st = Done (platformCut, creatorCut) st' ->
      platformCut = A * platformFee st / FEE_DENOMINATOR
      /\ creatorCut = A - platformCut
      /\ platformCut + creatorCut = A)
  /\ (forall A st,
        A * platformFee st <= UINT256_MAX -> platformFee st <= FEE_DENOMINATOR ->
        exists platformCut creatorCut,
          feeSplit A st = Done (platformCut, creatorCut) st)
  /\ (forall ts sender c tok st r st' A creator,
        settledPayment c st = Some (A, creator) ->
        call ts sender c tok st = (Success r, st') ->
        let platformCut := A * platformFee st / FEE_DENOMINATOR in
        let creatorCut := A - platformCut in
        platformCut + creatorCut = A
        /\ balanceOf st' creator = balanceOf st creator + creatorCut).
Proof.
  split; [| split].
  - intros A st pc cc st' H. apply feeSplit_done in H. tauto.
  - apply feeSplit_total.
  - intros ts sender c tok st r st' A creator Hs Hc. cbv zeta.
    pose proof (interact_wellBehaved ts tok) as Hor.
    unfold call in Hc.
    destruct c; try discriminate Hs; cbn in Hs; injection Hs as <- <-;
      revert Hc; run_body; intros Hc; try discriminate Hc;
      injection Hc as <- <-; frame_oracle Hor; leb_to_le;
      try (pose proof (subFrame_fields _ _ (Fsub subscriptionId)) as (_ & -> & _));
      rewrite ?Fbal; read_maps; try congruence; split; lia.
Qed.

Lemma transfer_failed_callsToken oracle ts sender c st :
  fst (callWith oracle ts sender c st) = Failure TransferFailed -> callsToken c = true.
Proof.
  destruct c; try reflexivity; run_body; cbn [fst]; intros H; discriminate H.
Qed.

(** C2. A call that fails with TransferFailed (which only a call that
    reaches the token can do) leaves the whole ledger state as it was
    before the call: the creator balances, the subscription records, the
    escrow records, and the event log. *)
Theorem transfer_failed_leaves_state ts sender c tok st :
  fst (call ts sender c tok st) = Failure TransferFailed ->
  let st' := snd (call ts sender c tok st) in
  callsToken c = true
  /\ st' = st
  /\ creatorBalances st' = creatorBalances st
  /\ subscriptions st' = subscriptions st
  /\ escrows st' = escrows st
  /\ events st' = events st.
Proof.
  intros Hf. cbv zeta. split; [exact (transfer_failed_callsToken _ _ _ _ _ Hf) |].
  unfold call in *.
  destruct (callWith (interact ts tok)
              ts sender c st) as [r st'] eqn:Hc.
  cbn [fst snd] in *. subst r. apply callWith_failure in Hc. subst st'.
  repeat split.
Qed.

(** C3 (as amended). A successful processSubscriptionPayment sets
    nextPaymentDue to the block timestamp plus the interval; the timestamp
    is at least the old due time, so the due time advances by at least
    the interval, and by exactly the interval only when the payment is
    processed at the very due time. No other call changes the due time of
    an existing subscription, and no call ever moves it backwards. *)
Theorem nextDue_set_from_timestamp :
  (forall ts sender id tok st r st',
      call ts sender (ProcessSubscriptionPayment id) tok st = (Success r, st') ->
      let old := subscriptionAt st id in
      let new := subscriptionAt st' id in
      Subscription.nextPaymentDue new = ts + Subscription.interval old
      /\ Subscription.nextPaymentDue old <= ts
      /\ Subscription.nextPaymentDue old + Subscription.interval old
         <= Subscription.nextPaymentDue new
      /\ (Subscription.nextPaymentDue new
          = Subscription.nextPaymentDue old + Subscription.interval old
          <-> ts = Subscription.nextPaymentDue old)
      /\ Subscription.interval new = Subscription.interval old)
  /\ (forall ts sender c tok st id,
        Subscription.subscriber (subscriptionAt st id) <> 0 ->
        let st' := snd (call ts sender c tok st) in
        (c <> ProcessSubscriptionPayment id ->
         Subscription.nextPaymentDue (subscriptionAt st' id)
         = Subscription.nextPaymentDue (subscriptionAt st id))
        /\ Subscription.nextPaymentDue (subscriptionAt st id)
           <= Subscription.nextPaymentDue (subscriptionAt st' id)).
Proof.
  split.
  - intros ts sender id tok st r st' Hc. cbv zeta.
    pose proof (callWith_subscription
                  (interact ts tok) ts sender
                  (ProcessSubscriptionPayment id) st id
                  (interact_wellBehaved ts tok)) as H.
    cbv zeta in H. unfold call in Hc. rewrite Hc in H. cbn [fst snd] in H.
    destruct H as [[_ H] | [H | H]].
    + specialize (H eq_refl). discriminate H.
    + destruct H as (_ & _ & _ & _ & _ & Hdue & ->). cbn.
      repeat split; try lia.
    + destruct H as (? & ? & ? & ? & H & _). discriminate H.
  - intros ts sender c tok st id Hsub. cbv zeta.
    pose proof (callWith_subscription
                  (interact ts tok) ts sender
                  c st id (interact_wellBehaved ts tok)) as H.
    cbv zeta in H. fold (call ts sender c tok st) in H.
    destruct H as [[H _] | [H | H]].
    + apply subFrame_fields in H. destruct H as (_ & _ & _ & _ & -> & _).
      split; [reflexivity | lia].
    + destruct H as (-> & _ & _ & _ & _ & Hdue & ->). cbn.
      split; [congruence | lia].
    + destruct H as (? & ? & ? & ? & _ & _ & _ & H & _). congruence.
Qed.


Lemma createSubscription_success ts sender sb cr a i tok st id st0 :
  call ts sender (CreateSubscription sb cr a i) tok st = (Success (Some id), st0) ->
  id = subscriptionIdOf sb cr ts a
  /\ sb <> 0
  /\ subscriptionAt st0 id = Subscription.mk sb cr a i (ts + i) true a 1.
Proof.
  unfold call. run_body; intros H; try discriminate H.
  injection H as <- <-. reduce_state. leb_to_le. read_maps; try congruence. auto.
Qed.

(** Along any trace, the counters of an existing subscription move only
    with the successful payments. *)
Lemma run_counters id txs : forall st,
  Subscription.subscriber (subscriptionAt st id) <> 0 ->
  let s := subscriptionAt st id in
  let s' := subscriptionAt (run txs st) id in
  let n := processedPayments id txs st in
  Subscription.amount s' = Subscription.amount s
  /\ Subscription.paymentsCount s' = Subscription.paymentsCount s + n
  /\ Subscription.totalPaid s' = Subscription.totalPaid s + Subscription.amount s * n.
Proof.
  induction txs as [| tx rest IH]; intros st Hsub; cbv zeta.
  - cbn. repeat split; lia.
  - cbn [run processedPayments].
    pose proof (callWith_subscription
                  (interact (tx_timestamp tx) (tx_token tx))
                  (tx_timestamp tx) (tx_sender tx) (tx_call tx) st id
                  (interact_wellBehaved _ _)) as H.
    cbv zeta in H. fold (call (tx_timestamp tx) (tx_sender tx) (tx_call tx) (tx_token tx) st) in H.
    fold (step tx st) in H.
    destruct H as [[H Hn] | [H | H]].
    + pose proof (subFrame_fields _ _ H) as (E1 & _ & E3 & _ & _ & E6 & E7).
      assert (Hsub' : Subscription.subscriber (subscriptionAt (snd (step tx st)) id) <> 0)
        by congruence.
      specialize (IH _ Hsub'). cbv zeta in IH. destruct IH as (I1 & I2 & I3).
      rewrite I1, I2, I3, E3, E6, E7.
      assert (Hz : match tx_call tx with
                   | ProcessSubscriptionPayment id' =>
                       if (id' =? id) && succeeded (fst (step tx st)) then 1 else 0
                   | _ => 0
                   end = 0).
      { destruct (tx_call tx); try reflexivity.
        destruct (subscriptionId =? id) eqn:E; [| reflexivity].
        apply N.eqb_eq in E. subst. rewrite (Hn eq_refl). reflexivity. }
      rewrite Hz. repeat split; lia.
    + destruct H as (Hc & Hr & _ & _ & _ & _ & Hs').
      assert (Hsub' : Subscription.subscriber (subscriptionAt (snd (step tx st)) id) <> 0)
        by (rewrite Hs'; exact Hsub).
      specialize (IH _ Hsub'). cbv zeta in IH. destruct IH as (I1 & I2 & I3).
      rewrite I1, I2, I3, Hc, Hr, N.eqb_refl. rewrite Hs'. cbn. repeat split; lia.
    + destruct H as (? & ? & ? & ? & _ & _ & _ & H & _). congruence.
Qed.

Lemma reachable_totalPaid st :
  reachable st -> forall id,
  Subscription.totalPaid (subscriptionAt st id)
  = Subscription.amount (subscriptionAt st id)
    * Subscription.paymentsCount (subscriptionAt st id).
Proof.
  induction 1 as [deployer token agent st Hinit | st ts sender c tok Hr IH]; intros id.
  - unfold constructor in Hinit.
    repeat match type of Hinit with
           | (if ?b then _ else _) = _ => destruct b; try discriminate Hinit
           end.
    injection Hinit as <-. reflexivity.
  - pose proof (callWith_subscription
                  (interact ts tok) ts sender
                  c st id (interact_wellBehaved ts tok)) as H.
    cbv zeta in H. fold (call ts sender c tok st) in H.
    specialize (IH id).
    destruct H as [[H _] | [H | H]].
    + apply subFrame_fields in H. destruct H as (_ & _ & -> & _ & _ & -> & ->). exact IH.
    + destruct H as (_ & _ & _ & _ & _ & _ & ->). cbn. rewrite IH. lia.
    + destruct H as (? & ? & ? & ? & _ & _ & _ & _ & _ & _ & _ & ->). cbn. lia.
Qed.

(** C4. In every reachable state every subscription has
    totalPaid = amount * paymentsCount; a subscription is created with
    paymentsCount 1 and totalPaid = amount, and after n successful
    processSubscriptionPayment calls, whatever else happens in between,
    paymentsCount is n + 1 and totalPaid is amount * (n + 1). *)
Theorem totalPaid_counts_payments :
  (forall st, reachable st -> forall id,
      Subscription.totalPaid (subscriptionAt st id)
      = Subscription.amount (subscriptionAt st id)
        * Subscription.paymentsCount (subscriptionAt st id))
  /\ (forall ts sender sb cr a i tok st id st0,
        call ts sender (CreateSubscription sb cr a i) tok st = (Success (Some id), st0) ->
        forall txs,
          let s := subscriptionAt (run txs st0) id in
          let n := processedPayments id txs st0 in
          Subscription.amount s = a
          /\ Subscription.paymentsCount s = n + 1
          /\ Subscription.totalPaid s = a * (n + 1)).
Proof.
  split; [exact reachable_totalPaid |].
  intros ts sender sb cr a i tok st id st0 Hc txs. cbv zeta.
  apply createSubscription_success in Hc. destruct Hc as (_ & Hsb & Hs0).
  assert (Hsub : Subscription.subscriber (subscriptionAt st0 id) <> 0)
    by (rewrite Hs0; exact Hsb).
  pose proof (run_counters id txs st0 Hsub) as H. cbv zeta in H.
  rewrite Hs0 in H. cbn in H. destruct H as (-> & -> & ->). repeat split; lia.
Qed.

(** C5. withdrawCreatorBalance fails with NoBalanceToWithdraw if and only
    if the caller's balance is zero; otherwise it zeroes the caller's
    balance before it calls the token, asks the token to pay exactly the
    balance held before the call, and, when the token pays, leaves the
    caller's balance at zero and logs a withdrawal of that amount. *)
Theorem withdraw_zeroes_before_transfer ts sender st :
  entered st = false ->
  (forall tok,
      fst (call ts sender WithdrawCreatorBalance tok st) = Failure NoBalanceToWithdraw
      <-> balanceOf st sender = 0)
  /\ (balanceOf st sender <> 0 ->
      (forall oracle, exists mid,
          balanceOf mid sender = 0
          /\ events mid = events st
          /\ callWith oracle ts sender WithdrawCreatorBalance st =
             match oracle (Transfer sender (balanceOf st sender)) mid with
             | (Some true, st2) =>
                 (Success None,
                  set_entered false
                    (set_events
                       (events st2 ++ [CreatorWithdrawal sender (balanceOf st sender)])
                       st2))
             | (Some false, _) => (Failure TransferFailed, st)
             | (None, _) => (Failure TokenReverted, st)
             end)
      /\ (forall tok r st',
            call ts sender WithdrawCreatorBalance tok st = (Success r, st') ->
            balanceOf st' sender = 0
            /\ (forall a, a <> sender -> balanceOf st' a = balanceOf st a)
            /\ exists log,
                events st' = log ++ [CreatorWithdrawal sender (balanceOf st sender)])).
Proof.
  intros He. split; [| intros Hb; split].
  - intros tok. unfold call. run_body; leb_to_le; cbn [fst];
      split; intros H; try discriminate H; try congruence; auto.
  - intros oracle.
    exists (set_creatorBalances (<[sender := 0]> (creatorBalances st))
              (set_entered true st)).
    split; [| split].
    + unfold balanceOf. reduce_state. rewrite lookup_insert_eq. reflexivity.
    + reflexivity.
    + run_body; leb_to_le; try congruence; reflexivity.
  - intros tok r st' Hc.
    pose proof (interact_wellBehaved ts tok) as Hor.
    unfold call in Hc. revert Hc.
    run_body; intros Hc; try discriminate Hc. injection Hc as <- <-.
    frame_oracle Hor. rewrite Fbal. split; [| split].
    + read_maps; congruence.
    + intros a Ha. read_maps; congruence.
    + eexists. reflexivity.
Qed.

(** The fee rate never leaves the range the Owner is held to. *)
Lemma callWith_fee oracle ts sender c st :
  (forall req s, platformFee s <= 1000 -> platformFee (snd (oracle req s)) <= 1000) ->
  platformFee st <= 1000 ->
  platformFee (snd (callWith oracle ts sender c st)) <= 1000.
Proof.
  intros Hor Hb. destruct c; run_body; leb_to_le; try assumption;
    try match goal with
    | H : oracle ?r ?s = (_, ?s1) |- _ =>
        let X := fresh in
        pose proof (Hor r s Hb) as X; rewrite H in X; exact X
    end.
  destruct (newFee <=? 1000) eqn:E; [apply N.leb_le in E; exact E | discriminate].
Qed.

Lemma interact_fee ts tok : forall req st,
  platformFee st <= 1000 -> platformFee (snd (interact ts tok req st)) <= 1000.
Proof.
  induction tok as [ok | | caller c inner IHinner k IHk]; intros req st Hb;
    [exact Hb | exact Hb |].
  cbn [interact].
  pose proof (callWith_fee (interact ts inner) ts caller c st (IHinner) Hb) as H1.
  destruct (callWith (interact ts inner) ts caller c st) as [r st1].
  apply IHk. exact H1.
Qed.

Lemma reachable_fee_bounded st : reachable st -> platformFee st <= FEE_DENOMINATOR.
Proof.
  intros Hr. assert (H : platformFee st <= 1000); [| unfold FEE_DENOMINATOR; lia].
  induction Hr as [deployer token agent st Hinit | st ts sender c tok Hr IH].
  - unfold constructor in Hinit.
    repeat match type of Hinit with
           | (if ?b then _ else _) = _ => destruct b; try discriminate Hinit
           end.
    injection Hinit as <-. cbn. lia.
  - apply callWith_fee; [apply interact_fee | exact IH].
Qed.

(** Once released, an escrow with a payer stays released, whatever is
    called afterwards. *)
Lemma released_forever id txs : forall st,
  Escrow.payer (escrowAt st id) <> 0 ->
  Escrow.released (escrowAt st id) = true ->
  Escrow.payer (escrowAt (run txs st) id) <> 0
  /\ Escrow.released (escrowAt (run txs st) id) = true.
Proof.
  induction txs as [| tx rest IH]; intros st Hp Hr; [split; assumption |].
  cbn [run]. apply IH;
    pose proof (callWith_escrow
                  (interact (tx_timestamp tx) (tx_token tx))
                  (tx_timestamp tx) (tx_sender tx) (tx_call tx) st id
                  (interact_wellBehaved _ _)) as H;
    cbv zeta in H;
    destruct H as [H | [H | H]];
    try (unfold step, call; rewrite H; assumption);
    try (destruct H as (_ & _ & _ & _ & H & _); congruence);
    destruct H as (? & ? & ? & _ & _ & _ & H & _); congruence.
Qed.

(** C6. An escrow is released at most once and only by an authorized
    caller: releaseMicropayment by a caller who is neither the payer nor
    the Owner fails with UnauthorizedUser; by the payer or the Owner on a
    released escrow it fails with EscrowAlreadyReleased; both leave the
    state unchanged. By the payer or the Owner on an escrow not yet
    released it succeeds (the arithmetic staying within uint256), sets
    released and credits the creator with the creator cut. After that
    the escrow stays released and no release of it succeeds again. *)
Theorem escrow_released_once ts sender id st :
  entered st = false ->
  let e := escrowAt st id in
  let authorized := sender = Escrow.payer e \/ sender = owner st in
  let cut := Escrow.amount e - Escrow.amount e * platformFee st / FEE_DENOMINATOR in
  (forall tok, ~ authorized ->
      call ts sender (ReleaseMicropayment id) tok st = (Failure UnauthorizedUser, st))
  /\ (forall tok, authorized -> Escrow.released e = true ->
        call ts sender (ReleaseMicropayment id) tok st
        = (Failure EscrowAlreadyReleased, st))
  /\ (forall tok, authorized -> Escrow.released e = false ->
        Escrow.amount e * platformFee st <= UINT256_MAX ->
        platformFee st <= FEE_DENOMINATOR ->
        balanceOf st (Escrow.creator e) + cut <= UINT256_MAX ->
        exists st',
          call ts sender (ReleaseMicropayment id) tok st = (Success None, st')
          /\ Escrow.released (escrowAt st' id) = true
          /\ balanceOf st' (Escrow.creator e) = balanceOf st (Escrow.creator e) + cut
          /\ forall ts2 sender2 tok2,
              sender2 = Escrow.payer e \/ sender2 = owner st' ->
              call ts2 sender2 (ReleaseMicropayment id) tok2 st'
              = (Failure EscrowAlreadyReleased, st'))
  /\ (forall tok r st',
        call ts sender (ReleaseMicropayment id) tok st = (Success r, st') ->
        authorized /\ Escrow.released e = false
        /\ Escrow.released (escrowAt st' id) = true)
  /\ (Escrow.payer e <> 0 -> Escrow.released e = true ->
      forall txs ts2 sender2 tok2 r,
        Escrow.released (escrowAt (run txs st) id) = true
        /\ fst (call ts2 sender2 (ReleaseMicropayment id) tok2 (run txs st))
           <> Success r).
Proof.
  intros He. cbv zeta.
  assert (Hauth : forall s,
    negb (s =? Escrow.payer (escrowAt st id)) && negb (s =? owner st) = false
    <-> (s = Escrow.payer (escrowAt st id) \/ s = owner st)).
  { intros s. destruct (N.eqb_spec s (Escrow.payer (escrowAt st id)));
      destruct (N.eqb_spec s (owner st)); cbn; intuition congruence. }
  split; [| split; [| split; [| split]]].
  - intros tok Hna. unfold call. run_body; try congruence;
      try (apply Hauth in Heqb0; contradiction).
  - intros tok Ha Hr. apply Hauth in Ha. unfold call.
    unfold escrowAt in *. run_body; try congruence.
  - intros tok Ha Hr Hmul Hfee Hadd. apply Hauth in Ha.
    assert (Hle : Escrow.amount (escrowAt st id) * platformFee st / FEE_DENOMINATOR
                  <= Escrow.amount (escrowAt st id)).
    { apply N.Div0.div_le_upper_bound. unfold FEE_DENOMINATOR in *. nia. }
    apply N.leb_le in Hmul, Hle, Hadd.
    unfold call. unfold escrowAt, balanceOf in *.
    unfold_contract. reduce_state.
    rewrite He. reduce_state. rewrite Ha. reduce_state.
    rewrite Hr. reduce_state. rewrite Hmul. reduce_state.
    rewrite Hle. reduce_state. rewrite Hadd. reduce_state.
    eexists. split; [reflexivity |]. reduce_state.
    rewrite !lookup_insert_eq. cbn. split; [reflexivity |]. split; [reflexivity |].
    intros ts2 sender2 tok2 Ha2.
    assert (Ha2' : negb (sender2 =? Escrow.payer (default Escrow.zero (escrows st !! id)))
                   && negb (sender2 =? owner st) = false).
    { apply Hauth. exact Ha2. }
    rewrite Ha2'. reflexivity.
  - intros tok r st' Hc. unfold call in Hc. revert Hc.
    run_body; intros Hc; try discriminate Hc. injection Hc as <- <-.
    reduce_state. rewrite lookup_insert_eq. cbn.
    split; [apply Hauth; assumption |]. split; [assumption | reflexivity].
  - intros Hp Hr txs ts2 sender2 tok2 r.
    destruct (released_forever id txs st Hp Hr) as [_ Hr'].
    split; [exact Hr' |].
    unfold call. unfold escrowAt in *. run_body; cbn; congruence.
Qed.

(** Between transactions the guard is never set. *)
Lemma call_keeps_guard_clear ts sender c tok st :
  entered st = false -> entered (snd (call ts sender c tok st)) = false.
Proof.
  intros He.
  pose proof (interact_wellBehaved ts tok) as Hor.
  unfold call. destruct c; run_body; frame_oracle Hor; congruence.
Qed.

Lemma reachable_not_entered st : reachable st -> entered st = false.
Proof.
  induction 1 as [deployer token agent st Hinit | st ts sender c tok Hr IH].
  - unfold constructor in Hinit.
    repeat match type of Hinit with
           | (if ?b then _ else _) = _ => destruct b; try discriminate Hinit
           end.
    injection Hinit as <-. reflexivity.
  - apply call_keeps_guard_clear, IH.
Qed.

Lemma set_entered_round_trip st :
  entered st = false -> set_entered false (set_entered true st) = st.
Proof. destruct st. cbn. intros ->. reflexivity. Qed.

(** C7 (as amended). withdrawPlatformFees(amount) is callable only by the
    Owner; for every amount it asks the token to transfer that amount to
    the Owner, comparing it with nothing: the ledger keeps no
    platform-fee accumulator. It succeeds when the token's transfer
    returns true and fails with TransferFailed when it returns false,
    and it changes no ledger state of its own. *)
Theorem withdrawPlatformFees_unchecked ts sender amount st :
  entered st = false ->
  (sender <> owner st ->
   forall oracle,
     callWith oracle ts sender (WithdrawPlatformFees amount) st
     = (Failure OwnableUnauthorizedAccount, st))
  /\ (sender = owner st ->
      (forall oracle,
          callWith oracle ts sender (WithdrawPlatformFees amount) st =
          match oracle (Transfer (owner st) amount) (set_entered true st) with
          | (Some true, st2) => (Success None, set_entered false st2)
          | (Some false, _) => (Failure TransferFailed, st)
          | (None, _) => (Failure TokenReverted, st)
          end)
      /\ call ts sender (WithdrawPlatformFees amount) (TReturn true) st
         = (Success None, st)
      /\ call ts sender (WithdrawPlatformFees amount) (TReturn false) st
         = (Failure TransferFailed, st)).
Proof.
  intros He. split; [| intros Ho; split; [| split]].
  - intros Hno oracle. run_body; leb_to_le; congruence.
  - intros oracle. run_body; leb_to_le; congruence.
  - unfold call. run_body; leb_to_le; try congruence;
      cbn [interact] in Heqp; try discriminate Heqp.
    injection Heqp as <-. rewrite set_entered_round_trip by congruence.
    reflexivity.
  - unfold call. run_body; leb_to_le; try congruence;
      cbn [interact] in Heqp; try discriminate Heqp; reflexivity.
Qed.

(** C8. A processSubscriptionPayment call by the Agent before the
    subscription's nextPaymentDue is rejected and changes no state: with
    PaymentNotDue when the subscription is active (with
    SubscriptionNotActive when it was cancelled). In particular, after a
    successful payment at time ts, a second call before ts + interval,
    and so a second call at the same time ts when the interval is at
    least one day, fails with PaymentNotDue. *)
Theorem payment_before_due_rejected :
  (forall ts sender id tok st,
      entered st = false -> sender = agentWallet st ->
      ts < Subscription.nextPaymentDue (subscriptionAt st id) ->
      (Subscription.active (subscriptionAt st id) = true ->
       call ts sender (ProcessSubscriptionPayment id) tok st
       = (Failure PaymentNotDue, st))
      /\ (Subscription.active (subscriptionAt st id) = false ->
          call ts sender (ProcessSubscriptionPayment id) tok st
          = (Failure SubscriptionNotActive, st)))
  /\ (forall ts sender id tok st r st1,
        call ts sender (ProcessSubscriptionPayment id) tok st = (Success r, st1) ->
        Subscription.active (subscriptionAt st1 id) = true ->
        (forall ts2 tok2,
            ts2 < ts + Subscription.interval (subscriptionAt st id) ->
            call ts2 (agentWallet st1) (ProcessSubscriptionPayment id) tok2 st1
            = (Failure PaymentNotDue, st1))
        /\ (ONE_DAY <= Subscription.interval (subscriptionAt st id) ->
            forall tok2,
              call ts (agentWallet st1) (ProcessSubscriptionPayment id) tok2 st1
              = (Failure PaymentNotDue, st1))).
Proof.
  assert (Hfirst : forall ts sender id tok st,
      entered st = false -> sender = agentWallet st ->
      ts < Subscription.nextPaymentDue (subscriptionAt st id) ->
      (Subscription.active (subscriptionAt st id) = true ->
       call ts sender (ProcessSubscriptionPayment id) tok st
       = (Failure PaymentNotDue, st))
      /\ (Subscription.active (subscriptionAt st id) = false ->
          call ts sender (ProcessSubscriptionPayment id) tok st
          = (Failure SubscriptionNotActive, st))).
  { intros ts sender id tok st He Hs Hlt. unfold call.
    split; intros Ha; run_body; leb_to_le; try congruence; try lia;
      rewrite Ha in *; discriminate. }
  split; [exact Hfirst |].
  intros ts sender id tok st r st1 Hc Hact.
  pose proof (callWith_subscription
                (interact ts tok) ts sender
                (ProcessSubscriptionPayment id) st id
                (interact_wellBehaved ts tok)) as H.
  cbv zeta in H. fold (call ts sender (ProcessSubscriptionPayment id) tok st) in H.
  pose proof (call_keeps_guard_clear ts sender (ProcessSubscriptionPayment id) tok st) as Hg.
  rewrite Hc in H, Hg. cbn [fst snd] in H, Hg.
  destruct H as [[_ H] | [H | H]].
  - specialize (H eq_refl). discriminate H.
  - destruct H as (_ & _ & _ & He & _ & _ & Hs1).
    assert (Hdue : Subscription.nextPaymentDue (subscriptionAt st1 id)
                   = ts + Subscription.interval (subscriptionAt st id))
      by (rewrite Hs1; reflexivity).
    split.
    + intros ts2 tok2 Hlt.
      apply (Hfirst ts2 (agentWallet st1) id tok2 st1); auto. lia.
    + intros Hday tok2.
      apply (Hfirst ts (agentWallet st1) id tok2 st1); auto.
      unfold ONE_DAY in Hday. lia.
  - destruct H as (? & ? & ? & ? & H & _). discriminate H.
Qed.

Lemma withdraw_run oracle ts sender st :
  entered st = false -> balanceOf st sender <> 0 ->
  callWith oracle ts sender WithdrawCreatorBalance st =
  match oracle (Transfer sender (balanceOf st sender))
          (set_creatorBalances (<[sender := 0]> (creatorBalances st))
             (set_entered true st)) with
  | (Some true, st2) =>
      (Success None,
       set_entered false
         (set_events (events st2 ++ [CreatorWithdrawal sender (balanceOf st sender)])
            st2))
  | (Some false, _) => (Failure TransferFailed, st)
  | (None, _) => (Failure TokenReverted, st)
  end.
Proof. intros He Hb. run_body; leb_to_le; try congruence; reflexivity. Qed.

(** C9 (as amended). The entry points that carry the nonReentrant
    modifier (createSubscription, processSubscriptionPayment, sendTip,
    createMicropaymentEscrow, releaseMicropayment,
    withdrawCreatorBalance, withdrawPlatformFees) are rejected when
    called while a guarded entry point is executing, and change no state:
    with the reentrancy error, or with the role error when the caller
    lacks the role checked before the guard. So a callback into one of
    them is invisible to the outer call; and a token transfer that calls
    back into withdrawCreatorBalance during a withdrawal is refused, and
    when the token then returns true the outer withdrawal completes
    exactly once. (cancelSubscription, setAgentWallet, updatePlatformFee
    and the ownership functions carry no guard.) *)
Theorem guarded_entry_points_reject_reentry :
  (forall oracle ts sender c st,
      entered st = true -> guarded c = true ->
      callWith oracle ts sender c st = (Failure (nestedRejection sender c st), st))
  /\ (forall ts caller c inner k req mid,
        entered mid = true -> guarded c = true ->
        interact ts (TCallback caller c inner k) req mid
        = interact ts
            (k (Failure (nestedRejection caller c mid))) req mid)
  /\ (forall ts sender st caller inner k,
        entered st = false -> balanceOf st sender <> 0 ->
        k (Failure ReentrancyGuardReentrantCall) = TReturn true ->
        exists st',
          call ts sender WithdrawCreatorBalance
            (TCallback caller WithdrawCreatorBalance inner k) st
          = (Success None, st')
          /\ balanceOf st' sender = 0
          /\ (forall a, a <> sender -> balanceOf st' a = balanceOf st a)
          /\ events st'
             = events st ++ [CreatorWithdrawal sender (balanceOf st sender)]).
Proof.
  split; [| split].
  - intros. apply callWith_guarded; assumption.
  - intros ts caller c inner k req mid He Hg. cbn [interact].
    rewrite callWith_guarded by assumption. reflexivity.
  - intros ts sender st caller inner k He Hb Hk.
    unfold call. rewrite withdraw_run by assumption.
    cbn [interact].
    rewrite callWith_guarded by reflexivity.
    cbn [nestedRejection]. rewrite Hk. cbn [interact].
    eexists. split; [reflexivity |].
    unfold balanceOf. reduce_state. split; [| split].
    + rewrite lookup_insert_eq. reflexivity.
    + intros a Ha. rewrite lookup_insert_ne by congruence. reflexivity.
    + reflexivity.
Qed.

(** C10. The recorded balance of a creator never decreases through any
    call other than that creator's own withdrawCreatorBalance, whoever
    the caller is (the Owner and the Agent included) and however the
    token behaves; and withdrawCreatorBalance changes the balance of no
    one but its caller, whose balance it leaves as it was (on failure) or
    at zero. *)
Theorem balance_only_reduced_by_own_withdrawal ts sender c tok st a :
  let st' := snd (call ts sender c tok st) in
  (~ (c = WithdrawCreatorBalance /\ sender = a) -> balanceOf st a <= balanceOf st' a)
  /\ (c = WithdrawCreatorBalance ->
      (a <> sender -> balanceOf st' a = balanceOf st a)
      /\ (a = sender -> balanceOf st' a = balanceOf st a \/ balanceOf st' a = 0)).
Proof.
  cbv zeta.
  pose proof (callWith_balance
                (interact ts tok) ts sender c st a
                (interact_wellBehaved ts tok)) as H.
  cbv zeta in H. fold (call ts sender c tok st) in H. destruct H as [Hw Hn].
  split; [| exact Hw].
  intros Hnot.
  assert (Hdec : c = WithdrawCreatorBalance \/ c <> WithdrawCreatorBalance)
    by (destruct c; auto; right; discriminate).
  destruct Hdec as [Hc | Hc]; [| auto].
  destruct (Hw Hc) as [Hother _].
  rewrite Hother; [lia |]. intros ->. apply Hnot. split; [assumption | reflexivity].
Qed.

End Properties.

(** ** The properties on the sample ledger *)

(** The sample states are states the deployed contract can be in. *)
Lemma samples_reachable :
  constructor 1 50 2 = Some deployed
  /\ reachable deployed /\ reachable subscribed /\ reachable paidLate
  /\ reachable tipped /\ reachable escrowed.
Proof.
  assert (Hd : reachable deployed) by (apply (reachable_init 1 50 2); reflexivity).
  assert (Hs : reachable subscribed) by (apply reachable_call; exact Hd).
  repeat split; try assumption; apply reachable_call; assumption.
Qed.

Lemma fee_split_conservation_witness :
  125000 + 4875000 = 5000000 /\ balanceOf subscribed 9 = 4875000.
Proof.
  pose proof (@fee_split_conservation sampleChain)
    as (_ & _ & H).
  apply (H 100 2 (CreateSubscription 7 9 5000000 2592000) (TReturn true) deployed
           (Some sampleSub) subscribed 5000000 9); vm_compute; reflexivity.
Defined.

Lemma transfer_failed_leaves_state_witness :
  snd (sampleCall 200 9 WithdrawCreatorBalance (TReturn false) subscribed) = subscribed.
Proof.
  assert (Hf : fst (sampleCall 200 9 WithdrawCreatorBalance (TReturn false) subscribed)
               = Failure TransferFailed) by (vm_compute; reflexivity).
  destruct (@transfer_failed_leaves_state sampleChain
              200 9 WithdrawCreatorBalance (TReturn false) subscribed Hf) as (_ & H & _).
  exact H.
Defined.

(** C3, the claim as written fails: charged 7900 seconds late, the
    subscription's next due time is the charge time plus the interval, not
    the old due time plus the interval. *)
Lemma nextDue_not_old_plus_interval :
  fst (sampleCall 2600000 2 (ProcessSubscriptionPayment sampleSub) (TReturn true)
         subscribed) = Success None
  /\ Subscription.nextPaymentDue (subscriptionAt paidLate sampleSub)
     <> Subscription.nextPaymentDue (subscriptionAt subscribed sampleSub)
        + Subscription.interval (subscriptionAt subscribed sampleSub).
Proof. vm_compute. split; [reflexivity | discriminate]. Qed.

Lemma nextDue_set_from_timestamp_witness :
  Subscription.nextPaymentDue (subscriptionAt paidLate sampleSub)
  = 2600000 + Subscription.interval (subscriptionAt subscribed sampleSub).
Proof.
  pose proof (@nextDue_set_from_timestamp sampleChain)
    as [H _].
  apply (H 2600000 2 sampleSub (TReturn true) subscribed None paidLate).
  vm_compute. reflexivity.
Defined.

Lemma totalPaid_counts_payments_witness :
  Subscription.paymentsCount (subscriptionAt paidLate sampleSub) = 2
  /\ Subscription.totalPaid (subscriptionAt paidLate sampleSub) = 5000000 * 2.
Proof.
  pose proof (@totalPaid_counts_payments sampleChain)
    as [_ H].
  assert (Hc : sampleCall 100 2 (CreateSubscription 7 9 5000000 2592000) (TReturn true)
                 deployed = (Success (Some sampleSub), subscribed))
    by (vm_compute; reflexivity).
  specialize (H 100 2 7 9 5000000 2592000 (TReturn true) deployed sampleSub subscribed Hc
                [mkTx 2600000 2 (ProcessSubscriptionPayment sampleSub) (TReturn true)]).
  cbv zeta in H. destruct H as (_ & H2 & H3). split; [exact H2 | exact H3].
Defined.

Lemma withdraw_zeroes_before_transfer_witness :
  fst (sampleCall 200 3 WithdrawCreatorBalance (TReturn true) subscribed)
  = Failure NoBalanceToWithdraw.
Proof.
  assert (He : entered subscribed = false) by (vm_compute; reflexivity).
  destruct (@withdraw_zeroes_before_transfer sampleChain
              200 3 subscribed He) as [H _].
  apply H. vm_compute. reflexivity.
Defined.

Lemma escrow_released_once_witness :
  sampleCall 400 3 (ReleaseMicropayment sampleEscrow) (TReturn true) escrowed
  = (Failure UnauthorizedUser, escrowed).
Proof.
  assert (He : entered escrowed = false) by (vm_compute; reflexivity).
  destruct (@escrow_released_once sampleChain
              400 3 sampleEscrow escrowed He) as [H _].
  apply H. vm_compute. intros [H1 | H1]; discriminate H1.
Defined.

(** C7, the claim as written fails: one tip of 1000 has settled, so the
    platform fees accrued are 25 and the creator is owed 975; the Owner asks
    for 1000 and the call succeeds. *)
Lemma platform_fees_withdrawal_exceeds_accrued :
  specFeeAccumulator tipTrace deployed 0 = 25
  /\ balanceOf tipped 9 = 975
  /\ 25 < 1000
  /\ sampleCall 300 1 (WithdrawPlatformFees 1000) (TReturn true) tipped
     = (Success None, tipped).
Proof. vm_compute. repeat split; reflexivity. Qed.

Lemma withdrawPlatformFees_unchecked_witness :
  sampleCall 300 1 (WithdrawPlatformFees 1000) (TReturn false) tipped
  = (Failure TransferFailed, tipped).
Proof.
  assert (He : entered tipped = false) by (vm_compute; reflexivity).
  destruct (@withdrawPlatformFees_unchecked sampleChain
              300 1 1000 tipped He) as [_ H].
  apply H. vm_compute. reflexivity.
Defined.

Lemma payment_before_due_rejected_witness :
  sampleCall 200 2 (ProcessSubscriptionPayment sampleSub) (TReturn true) subscribed
  = (Failure PaymentNotDue, subscribed).
Proof.
  pose proof (@payment_before_due_rejected sampleChain)
    as [H _].
  apply (H 200 2 sampleSub (TReturn true) subscribed); vm_compute; reflexivity.
Defined.

(** C9, the claim as written fails: cancelSubscription carries no guard.
    Called by the subscriber from inside the token transfer of a
    withdrawal, while the guard is set, it succeeds and cancels the
    subscription; the outer withdrawal goes through. *)
Lemma cancelSubscription_reenters :
  guarded (CancelSubscription sampleSub) = false
  /\ Subscription.active (subscriptionAt subscribed sampleSub) = true
  /\ fst (callWith
            (fun _ st => (Some true, st)) 200 7 (CancelSubscription sampleSub)
            (set_entered true subscribed))
     = Success None
  /\ fst (sampleCall 200 9 WithdrawCreatorBalance reenteringToken subscribed)
     = Success None
  /\ Subscription.active
       (subscriptionAt
          (snd (sampleCall 200 9 WithdrawCreatorBalance reenteringToken subscribed))
          sampleSub)
     = false.
Proof. vm_compute. repeat split; reflexivity. Qed.

Lemma guarded_entry_points_reject_reentry_witness :
  exists st',
    sampleCall 200 9 WithdrawCreatorBalance withdrawingToken subscribed
    = (Success None, st')
    /\ balanceOf st' 9 = 0
    /\ (forall a, a <> 9 -> balanceOf st' a = balanceOf subscribed a)
    /\ events st'
       = events subscribed ++ [CreatorWithdrawal 9 (balanceOf subscribed 9)].
Proof.
  pose proof (@guarded_entry_points_reject_reentry sampleChain)
    as (_ & _ & H).
  apply (H 200 9 subscribed 9 (TReturn true) (fun _ => TReturn true)).
  - vm_compute. reflexivity.
  - vm_compute. discriminate.
  - reflexivity.
Defined.

Lemma balance_only_reduced_by_own_withdrawal_witness :
  balanceOf subscribed 9
  <= balanceOf (snd (sampleCall 300 1 (WithdrawPlatformFees 4875000) (TReturn true)
                       subscribed)) 9.
Proof.
  destruct (@balance_only_reduced_by_own_withdrawal sampleChain
              300 1 (WithdrawPlatformFees 4875000) (TReturn true) subscribed 9)
    as [H _].
  apply H. intros [H1 _]. discriminate H1.
Defined.

(** ** Further properties of the ledger *)

Section MoreProperties.

Context {chain : Chain}.

Lemma createSubscription_validated oracle ts sender sb cr a i st r st' :
  callWith oracle ts sender (CreateSubscription sb cr a i) st = (Success r, st') ->
  sender = agentWallet st /\ entered st = false
  /\ cr <> 0 /\ sb <> 0 /\ a <> 0 /\ ONE_DAY <= i.
Proof.
  run_body; intros H; try discriminate H. leb_to_le. repeat split; assumption.
Qed.

Lemma subFrame_inactive s s' :
  subFrame s s' -> Subscription.active s = false -> s' = s.
Proof.
  intros [E A] Ha. destruct s, s'. cbn in *. subst.
  unfold Subscription.set_active in E. cbn in E.
  destruct active0; [specialize (A eq_refl); discriminate A | exact E].
Qed.



Lemma cancelled_forever id txs : forall st,
  Subscription.subscriber (subscriptionAt st id) <> 0 ->
  Subscription.active (subscriptionAt st id) = false ->
  subscriptionAt (run txs st) id = subscriptionAt st id.
Proof.
  induction txs as [| tx rest IH]; intros st Hsub Hina; [reflexivity |].
  cbn [run].
  pose proof (callWith_subscription
                (interact (tx_timestamp tx) (tx_token tx))
                (tx_timestamp tx) (tx_sender tx) (tx_call tx) st id
                (interact_wellBehaved _ _)) as H.
  cbv zeta in H.
  fold (call (tx_timestamp tx) (tx_sender tx) (tx_call tx) (tx_token tx) st) in H.
  fold (step tx st) in H.
  destruct H as [[H _] | [H | H]].
  - apply subFrame_inactive in H; [| exact Hina].
    rewrite IH; rewrite H; auto.
  - destruct H as (_ & _ & _ & _ & Ha & _). congruence.
  - destruct H as (? & ? & ? & ? & _ & _ & _ & H & _). congruence.
Qed.

(** X2. cancelSubscription is refused with UnauthorizedUser for a caller
    who is neither the subscriber nor the Owner, and with
    SubscriptionNotActive for an inactive or never-created subscription;
    otherwise it only clears the active flag, refunds nothing and logs the
    cancellation. A cancelled subscription is final: whatever is called
    afterwards, its record never changes again, and no payment processing
    or second cancellation of it succeeds. *)
Theorem cancelSubscription_is_final :
  (forall oracle ts sender id st,
      let s := subscriptionAt st id in
      (sender <> Subscription.subscriber s -> sender <> owner st ->
       callWith oracle ts sender (CancelSubscription id) st
       = (Failure UnauthorizedUser, st))
      /\ (sender = Subscription.subscriber s \/ sender = owner st ->
          Subscription.active s = false ->
          callWith oracle ts sender (CancelSubscription id) st
          = (Failure SubscriptionNotActive, st))
      /\ (sender = Subscription.subscriber s \/ sender = owner st ->
          Subscription.active s = true ->
          exists st',
            callWith oracle ts sender (CancelSubscription id) st = (Success None, st')
            /\ subscriptionAt st' id = Subscription.set_active false s
            /\ (forall id', id' <> id -> subscriptionAt st' id' = subscriptionAt st id')
            /\ creatorBalances st' = creatorBalances st
            /\ events st'
               = events st ++ [SubscriptionCancelled id (Subscription.subscriber s)
                                 (Subscription.creator s)]))
  /\ (forall id st,
        Subscription.subscriber (subscriptionAt st id) <> 0 ->
        Subscription.active (subscriptionAt st id) = false ->
        forall txs,
          subscriptionAt (run txs st) id = subscriptionAt st id
          /\ forall ts sender tok r,
              fst (call ts sender (ProcessSubscriptionPayment id) tok (run txs st))
              <> Success r
              /\ fst (call ts sender (CancelSubscription id) tok (run txs st))
                 <> Success r).
Proof.
  split.
  - intros oracle ts sender id st. cbv zeta.
    assert (Hauth :
      negb (sender =? Subscription.subscriber (subscriptionAt st id))
      && negb (sender =? owner st) = false
      <-> (sender = Subscription.subscriber (subscriptionAt st id) \/ sender = owner st)).
    { destruct (N.eqb_spec sender (Subscription.subscriber (subscriptionAt st id)));
        destruct (N.eqb_spec sender (owner st)); cbn; intuition congruence. }
    split; [| split].
    + intros H1 H2. run_body; try reflexivity;
        destruct (proj1 Hauth eq_refl); contradiction.
    + intros Ha Hina. apply Hauth in Ha. unfold subscriptionAt in *.
      run_body; try congruence; rewrite Hina in *; discriminate.
    + intros Ha Hact. apply Hauth in Ha. unfold subscriptionAt in *.
      unfold_contract. reduce_state. rewrite Ha. reduce_state.
      rewrite Hact. reduce_state.
      eexists. split; [reflexivity |]. reduce_state.
      split; [rewrite lookup_insert_eq; reflexivity |].
      split; [| split; reflexivity].
      intros id' Hne. rewrite lookup_insert_ne by congruence. reflexivity.
  - intros id st Hsub Hina txs.
    pose proof (cancelled_forever id txs st Hsub Hina) as Hsame.
    split; [exact Hsame |].
    intros ts sender tok r.
    assert (Hina' : Subscription.active (subscriptionAt (run txs st) id) = false)
      by (rewrite Hsame; exact Hina).
    unfold call, subscriptionAt in *.
    split; run_body; cbn [fst]; try congruence; rewrite Hina' in *; discriminate.
Qed.

Lemma createSubscription_effect oracle ts sender sb cr a i st r st' :
  wellBehaved oracle ->
  callWith oracle ts sender (CreateSubscription sb cr a i) st = (Success r, st') ->
  let id0 := subscriptionIdOf sb cr ts a in
  r = Some id0
  /\ Subscription.subscriber (subscriptionAt st id0) = 0
  /\ sb <> 0
  /\ userSubscriptions st'
     = <[sb := idsOf (userSubscriptions st) sb ++ [id0]]> (userSubscriptions st)
  /\ creatorSubscriptions st'
     = <[cr := idsOf (creatorSubscriptions st) cr ++ [id0]]> (creatorSubscriptions st)
  /\ subscriptionAt st' id0 = Subscription.mk sb cr a i (ts + i) true a 1
  /\ (forall id, id <> id0 ->
      Subscription.subscriber (subscriptionAt st' id)
      = Subscription.subscriber (subscriptionAt st id)
      /\ Subscription.creator (subscriptionAt st' id)
         = Subscription.creator (subscriptionAt st id)).
Proof.
  intros Hor. cbv zeta. run_body; intros H; try discriminate H.
  injection H as <- <-. frame_oracle Hor. reduce_state. leb_to_le.
  destruct (Subscription.subscriber _ =? 0) eqn:Hz in Heqb5; try discriminate.
  leb_to_le. rewrite Fusr, Fcre.
  repeat (split; [first [reflexivity | assumption] |]).
  split.
  - rewrite lookup_insert_eq. reflexivity.
  - intros id Hne. rewrite lookup_insert_ne by congruence.
    destruct (subFrame_fields _ _ (Fsub id)) as (E1 & E2 & _). auto.
Qed.

Lemma other_calls_keep_index oracle ts sender c st :
  wellBehaved oracle ->
  (forall sb cr a i, c <> CreateSubscription sb cr a i) ->
  let st' := snd (callWith oracle ts sender c st) in
  userSubscriptions st' = userSubscriptions st
  /\ creatorSubscriptions st' = creatorSubscriptions st
  /\ (forall id,
      Subscription.subscriber (subscriptionAt st' id)
      = Subscription.subscriber (subscriptionAt st id)
      /\ Subscription.creator (subscriptionAt st' id)
         = Subscription.creator (subscriptionAt st id)).
Proof.
  intros Hor Hnc. cbv zeta. split; [| split].
  - destruct c; try (exfalso; eapply Hnc; reflexivity);
      run_body; frame_oracle Hor; congruence.
  - destruct c; try (exfalso; eapply Hnc; reflexivity);
      run_body; frame_oracle Hor; congruence.
  - intros id.
    pose proof (callWith_subscription oracle ts sender c st id Hor) as H.
    cbv zeta in H. destruct H as [[H _] | [H | H]].
    + destruct (subFrame_fields _ _ H) as (E1 & E2 & _). auto.
    + destruct H as (_ & _ & _ & _ & _ & _ & ->). cbn. auto.
    + destruct H as (sb & cr & a & i & Hc & _). exfalso. eapply Hnc, Hc.
Qed.

Lemma failed_call_keeps_state oracle ts sender c st e :
  fst (callWith oracle ts sender c st) = Failure e ->
  snd (callWith oracle ts sender c st) = st.
Proof.
  destruct (callWith oracle ts sender c st) as [r st'] eqn:Hc. cbn.
  intros ->. eapply callWith_failure, Hc.
Qed.

Lemma idsOf_insert (m : gmap N (list N)) k l k' :
  idsOf (<[k := l]> m) k' = if decide (k = k') then l else idsOf m k'.
Proof. unfold idsOf. rewrite lookup_insert. case_decide; reflexivity. Qed.

Lemma call_indexed ts sender c tok st :
  indexed st -> indexed (snd (call ts sender c tok st)).
Proof.
  intros (Iu & Ic & Nu & Nc).
  pose proof (interact_wellBehaved ts tok) as Hor.
  assert (Hcase : (forall sb cr a i, c <> CreateSubscription sb cr a i)
                  \/ exists sb cr a i, c = CreateSubscription sb cr a i).
  { destruct c; try (left; intros; discriminate). right. eauto. }
  destruct Hcase as [Hnc | (sb & cr & a & i & ->)].
  - destruct (other_calls_keep_index (interact ts tok) ts sender c st Hor Hnc)
      as (Eu & Ec & Ef).
    fold (call ts sender c tok st) in Eu, Ec, Ef.
    unfold indexed, getUserSubscriptions, getCreatorSubscriptions in *.
    rewrite Eu, Ec.
    split; [| split; [| split]].
    + intros u id. destruct (Ef id) as [-> _]. apply Iu.
    + intros c0 id. destruct (Ef id) as [-> ->]. apply Ic.
    + exact Nu.
    + exact Nc.
  - destruct (call ts sender (CreateSubscription sb cr a i) tok st) as [r st'] eqn:Hc.
    destruct r as [ret | e]; cbn [snd].
    2: { unfold call in Hc. apply callWith_failure in Hc. subst st'.
         exact (conj Iu (conj Ic (conj Nu Nc))). }
    unfold call in Hc.
    destruct (createSubscription_effect _ _ _ _ _ _ _ _ _ _ Hor Hc)
      as (_ & Hempty & Hsb & Eu & Ec & Enew & Eold).
    set (id0 := subscriptionIdOf sb cr ts a) in *.
    assert (Hnu : id0 ∉ idsOf (userSubscriptions st) sb).
    { intros Hin. apply Iu in Hin. destruct Hin as [_ Hin]. congruence. }
    assert (Hncr : id0 ∉ idsOf (creatorSubscriptions st) cr).
    { intros Hin. apply Ic in Hin. destruct Hin as [Hin _]. congruence. }
    unfold indexed, getUserSubscriptions, getCreatorSubscriptions in *.
    rewrite Eu, Ec.
    split; [| split; [| split]].
    + intros u id. rewrite idsOf_insert.
      destruct (decide (id = id0)) as [-> | Hne].
      * rewrite Enew. cbn. case_decide.
        -- subst u. rewrite elem_of_app, list_elem_of_singleton. intuition.
        -- rewrite Iu, Hempty. intuition congruence.
      * destruct (Eold id Hne) as [-> _]. case_decide.
        -- subst u. rewrite elem_of_app, list_elem_of_singleton, Iu. intuition.
        -- apply Iu.
    + intros c id. rewrite idsOf_insert.
      destruct (decide (id = id0)) as [-> | Hne].
      * rewrite Enew. cbn. case_decide.
        -- subst c. rewrite elem_of_app, list_elem_of_singleton. intuition.
        -- rewrite Ic, Hempty. intuition congruence.
      * destruct (Eold id Hne) as [-> ->]. case_decide.
        -- subst c. rewrite elem_of_app, list_elem_of_singleton, Ic. intuition.
        -- apply Ic.
    + intros u. rewrite idsOf_insert. case_decide; [| apply Nu].
      subst u. apply NoDup_app. split; [apply Nu |].
      split; [| apply NoDup_singleton].
      intros x Hx Hx'. apply list_elem_of_singleton in Hx'. subst x. contradiction.
    + intros c. rewrite idsOf_insert. case_decide; [| apply Nc].
      subst c. apply NoDup_app. split; [apply Nc |].
      split; [| apply NoDup_singleton].
      intros x Hx Hx'. apply list_elem_of_singleton in Hx'. subst x. contradiction.
Qed.

(** X3. In every state the ledger can reach, getUserSubscriptions(u)
    lists, without repetition, exactly the identifiers of the subscriptions
    whose subscriber is u, cancelled ones included, and
    getCreatorSubscriptions(c) exactly those of the existing subscriptions
    whose creator is c. *)
Theorem reachable_index_matches_records st :
  reachable st ->
  (forall u id, id ∈ getUserSubscriptions u st
                <-> u <> 0 /\ Subscription.subscriber (subscriptionAt st id) = u)
  /\ (forall c id, id ∈ getCreatorSubscriptions c st
                   <-> Subscription.subscriber (subscriptionAt st id) <> 0
                       /\ Subscription.creator (subscriptionAt st id) = c)
  /\ (forall u, NoDup (getUserSubscriptions u st))
  /\ (forall c, NoDup (getCreatorSubscriptions c st)).
Proof.
  intros Hr. change (indexed st).
  induction Hr as [deployer token agent st Hinit | st ts sender c tok Hr IH].
  - unfold constructor in Hinit.
    repeat match type of Hinit with
           | (if ?b then _ else _) = _ => destruct b; try discriminate Hinit
           end.
    injection Hinit as <-.
    unfold indexed, getUserSubscriptions, getCreatorSubscriptions, idsOf, subscriptionAt.
    cbn [userSubscriptions creatorSubscriptions subscriptions].
    split; [| split; [| split]]; intros; rewrite ?lookup_empty; cbn;
      try apply NoDup_nil_2.
    + split; [intros Hin; apply elem_of_nil in Hin; contradiction |].
      intros [Hu Hz]. congruence.
    + split; [intros Hin; apply elem_of_nil in Hin; contradiction |].
      intros [Hu _]. congruence.
  - apply call_indexed, IH.
Qed.

Lemma settled_credit ts sender c tok st r st' A creator :
  settledPayment c st = Some (A, creator) ->
  call ts sender c tok st = (Success r, st') ->
  balanceOf st' creator
  = balanceOf st creator + (A - A * platformFee st / FEE_DENOMINATOR).
Proof.
  intros Hs Hc.
  pose proof (interact_wellBehaved ts tok) as Hor.
  unfold call in Hc.
  destruct c; try discriminate Hs; cbn in Hs; injection Hs as <- <-;
    revert Hc; run_body; intros Hc; try discriminate Hc;
    injection Hc as <- <-; frame_oracle Hor; leb_to_le;
    try (pose proof (subFrame_fields _ _ (Fsub subscriptionId)) as (_ & -> & _));
    rewrite ?Fbal; read_maps; try congruence; lia.
Qed.

Lemma reachable_fee_cap st : reachable st -> platformFee st <= 1000.
Proof.
  induction 1 as [deployer token agent st Hinit | st ts sender c tok Hr IH].
  - unfold constructor in Hinit.
    repeat match type of Hinit with
           | (if ?b then _ else _) = _ => destruct b; try discriminate Hinit
           end.
    injection Hinit as <-. cbn. lia.
  - apply callWith_fee; [apply interact_fee | exact IH].
Qed.

Lemma fee_at_most_tenth A fee :
  fee <= 1000 -> A * fee / FEE_DENOMINATOR <= A / 10.
Proof.
  intros Hfee. unfold FEE_DENOMINATOR.
  transitivity (A * 1000 / 10000).
  - apply N.Div0.div_le_mono. nia.
  - change 10000 with (10 * 1000). rewrite N.Div0.div_mul_cancel_r by lia. lia.
Qed.

(** X4. In every state the ledger can reach the fee rate is at most 1000
    basis points, so every settled payment (subscription creation,
    due-payment processing, tip, escrow release) credits the creator with
    at least the gross amount less a tenth of it; and updatePlatformFee
    with a rate above 1000 fails for every caller. *)
Theorem creator_keeps_nine_tenths st :
  reachable st ->
  platformFee st <= 1000
  /\ (forall ts sender c tok r st' A creator,
        settledPayment c st = Some (A, creator) ->
        call ts sender c tok st = (Success r, st') ->
        balanceOf st creator + (A - A / 10) <= balanceOf st' creator)
  /\ (forall oracle ts sender newFee,
        1000 < newFee ->
        callWith oracle ts sender (UpdatePlatformFee newFee) st
        = (Failure (if sender =? owner st then FeeTooHigh
                    else OwnableUnauthorizedAccount), st)).
Proof.
  intros Hr. pose proof (reachable_fee_cap st Hr) as Hfee.
  split; [exact Hfee |]. split.
  - intros ts sender c tok r st' A creator Hs Hc.
    rewrite (settled_credit _ _ _ _ _ _ _ _ _ Hs Hc).
    pose proof (fee_at_most_tenth A (platformFee st) Hfee). lia.
  - intros oracle ts sender newFee Hbig. apply N.leb_gt in Hbig.
    unfold_contract. reduce_state.
    destruct (sender =? owner st); [| reflexivity].
    rewrite Hbig. reflexivity.
Qed.

(** X5. isPaymentDue is the exact test for processSubscriptionPayment: if
    it answers true at some time, the Agent's call at that time or later
    is never refused as inactive, not due, unauthorized or reentrant, and
    it succeeds when the token pays and the sums fit in uint256, after
    which isPaymentDue at that time answers false; if it answers false,
    processSubscriptionPayment at that time succeeds for no caller. *)
Theorem isPaymentDue_decides_processing :
  (forall ts0 ts id st,
      entered st = false -> ts0 <= ts -> isPaymentDue ts0 id st = true ->
      let s := subscriptionAt st id in
      let cut := Subscription.amount s
                 - Subscription.amount s * platformFee st / FEE_DENOMINATOR in
      (forall tok e,
          fst (call ts (agentWallet st) (ProcessSubscriptionPayment id) tok st)
          = Failure e ->
          e = Panic \/ e = TransferFailed \/ e = TokenReverted)
      /\ (Subscription.amount s * platformFee st <= UINT256_MAX ->
          platformFee st <= FEE_DENOMINATOR ->
          balanceOf st (Subscription.creator s) + cut <= UINT256_MAX ->
          ts + Subscription.interval s <= UINT256_MAX ->
          Subscription.totalPaid s + Subscription.amount s <= UINT256_MAX ->
          Subscription.paymentsCount s + 1 <= UINT256_MAX ->
          exists st',
            call ts (agentWallet st) (ProcessSubscriptionPayment id) (TReturn true) st
            = (Success None, st')
            /\ balanceOf st' (Subscription.creator s)
               = balanceOf st (Subscription.creator s) + cut
            /\ (0 < Subscription.interval s -> isPaymentDue ts id st' = false)))
  /\ (forall ts id st,
        isPaymentDue ts id st = false ->
        forall sender tok r,
          fst (call ts sender (ProcessSubscriptionPayment id) tok st) <> Success r).
Proof.
  split.
  - intros ts0 ts id st He Hle Hdue. cbv zeta.
    unfold isPaymentDue in Hdue. apply andb_true_iff in Hdue.
    destruct Hdue as [Hact Hdue]. apply N.leb_le in Hdue.
    assert (Hnow : (ts <? Subscription.nextPaymentDue (subscriptionAt st id)) = false)
      by (apply N.ltb_ge; lia).
    unfold subscriptionAt, balanceOf in *.
    split.
    + intros tok e. unfold call. run_body; cbn [fst]; intros H;
        try discriminate H; injection H as <-; auto;
        try (rewrite N.eqb_refl in *; discriminate);
        try congruence; rewrite Hact in *; discriminate.
    + intros Hmul Hfee Hadd Hdue' Hpaid Hcount.
      assert (Hcut : Subscription.amount (default Subscription.zero (subscriptions st !! id))
                     * platformFee st / FEE_DENOMINATOR
                     <= Subscription.amount
                          (default Subscription.zero (subscriptions st !! id))).
      { apply N.Div0.div_le_upper_bound. unfold FEE_DENOMINATOR in *. nia. }
      apply N.leb_le in Hmul, Hcut, Hadd, Hdue', Hpaid, Hcount.
      unfold call. unfold_contract. reduce_state.
      rewrite N.eqb_refl, He. reduce_state. rewrite Hact. reduce_state.
      rewrite Hnow. reduce_state. rewrite Hmul. reduce_state.
      rewrite Hcut. reduce_state. cbn [interact]. reduce_state.
      rewrite Hadd. reduce_state. rewrite Hdue'. reduce_state.
      rewrite Hpaid. reduce_state. rewrite Hcount. reduce_state.
      eexists. split; [reflexivity |]. reduce_state.
      split; [rewrite lookup_insert_eq; reflexivity |].
      intros Hpos. unfold isPaymentDue, subscriptionAt. reduce_state.
      rewrite !lookup_insert_eq. cbn.
      apply andb_false_iff. right. apply N.leb_gt. lia.
  - intros ts id st Hnot sender tok r.
    unfold isPaymentDue in Hnot. unfold call, subscriptionAt in *.
    run_body; cbn [fst]; try congruence.
    leb_to_le. rewrite negb_false_iff in *.
    match goal with H : Subscription.active _ = true |- _ => rewrite H in Hnot end.
    cbn in Hnot. apply N.leb_gt in Hnot. lia.
Qed.

(** A property that every call keeps, if the token keeps it, is kept by
    every token behaviour, and so holds in every reachable state. *)
Lemma interact_invariant (P : State -> Prop) :
  (forall oracle ts sender c st,
      (forall req s, P s -> P (snd (oracle req s))) ->
      P st -> P (snd (callWith oracle ts sender c st))) ->
  forall ts tok req st, P st -> P (snd (interact ts tok req st)).
Proof.
  intros Hstep ts tok.
  induction tok as [ok | | caller c inner IHinner k IHk]; intros req st HP;
    [exact HP | exact HP |].
  cbn [interact].
  pose proof (Hstep (interact ts inner) ts caller c st IHinner HP) as H1.
  destruct (callWith (interact ts inner) ts caller c st) as [r st1].
  apply IHk. exact H1.
Qed.

Lemma reachable_invariant (P : State -> Prop) :
  (forall deployer token agent st, constructor deployer token agent = Some st -> P st) ->
  (forall oracle ts sender c st,
      (forall req s, P s -> P (snd (oracle req s))) ->
      P st -> P (snd (callWith oracle ts sender c st))) ->
  forall st, reachable st -> P st.
Proof.
  intros Hinit Hstep st Hr.
  induction Hr as [deployer token agent st Hc | st ts sender c tok Hr IH].
  - eapply Hinit, Hc.
  - apply Hstep; [| exact IH]. intros req s. apply interact_invariant, Hstep.
Qed.

Ltac use_oracle Hor HP :=
  repeat match goal with
  | H : ?o ?r ?s = (_, ?s1) |- _ =>
      let X := fresh "Hinv" in
      pose proof (Hor r s HP) as X; rewrite H in X; cbn [snd] in X;
      revert H
  end; intros.

Lemma agentWallet_never_zero st : reachable st -> agentWallet st <> 0.
Proof.
  apply (reachable_invariant (fun s => agentWallet s <> 0)).
  - intros deployer token agent s Hinit. unfold constructor in Hinit.
    repeat match type of Hinit with
           | (if ?b then _ else _) = _ => destruct b eqn:?; try discriminate Hinit
           end.
    injection Hinit as <-. cbn. leb_to_le. assumption.
  - intros oracle ts sender c s Hor HP.
    destruct c; run_body; use_oracle Hor HP; leb_to_le; assumption.
Qed.

(** X6. The Agent role: its address is never zero in a reachable state;
    setAgentWallet is refused for anyone but the Owner and for the zero
    address, and otherwise replaces the Agent, touching no subscription
    and no balance and logging the old and the new address; and
    createSubscription, processSubscriptionPayment and sendTip fail with
    UnauthorizedAgent for every caller who is not the current Agent, so a
    replaced Agent is locked out at once. *)
Theorem agent_rotation :
  (forall st, reachable st -> agentWallet st <> 0)
  /\ (forall oracle ts sender newAgent st,
        (sender <> owner st ->
         callWith oracle ts sender (SetAgentWallet newAgent) st
         = (Failure OwnableUnauthorizedAccount, st))
        /\ (sender = owner st -> newAgent = 0 ->
            callWith oracle ts sender (SetAgentWallet newAgent) st
            = (Failure InvalidAddress, st))
        /\ (sender = owner st -> newAgent <> 0 ->
            exists st',
              callWith oracle ts sender (SetAgentWallet newAgent) st
              = (Success None, st')
              /\ agentWallet st' = newAgent
              /\ owner st' = owner st
              /\ subscriptions st' = subscriptions st
              /\ creatorBalances st' = creatorBalances st
              /\ escrows st' = escrows st
              /\ events st' = events st ++ [AgentWalletUpdated (agentWallet st) newAgent]
              /\ (agentWallet st <> newAgent ->
                  forall ts2 c tok2,
                    agentOnly c = true ->
                    call ts2 (agentWallet st) c tok2 st'
                    = (Failure UnauthorizedAgent, st'))))
  /\ (forall ts sender c tok st,
        agentOnly c = true -> sender <> agentWallet st ->
        call ts sender c tok st = (Failure UnauthorizedAgent, st)).
Proof.
  assert (Hgate : forall ts sender c tok st,
             agentOnly c = true -> sender <> agentWallet st ->
             call ts sender c tok st = (Failure UnauthorizedAgent, st)).
  { intros ts sender c tok st Hc Hne. apply N.eqb_neq in Hne. unfold call.
    destruct c; try discriminate Hc; unfold_contract; reduce_state;
      rewrite Hne; reflexivity. }
  split; [exact agentWallet_never_zero |]. split; [| exact Hgate].
  intros oracle ts sender newAgent st. split; [| split].
  - intros Hne. run_body; leb_to_le; congruence.
  - intros Ho ->. run_body; leb_to_le; congruence.
  - intros Ho Hnz. apply N.eqb_eq in Ho. apply N.eqb_neq in Hnz.
    unfold_contract. reduce_state. rewrite Ho. reduce_state. rewrite Hnz. reduce_state.
    eexists. split; [reflexivity |]. reduce_state.
    repeat (split; [reflexivity |]).
    intros Hdiff ts2 c tok2 Hc. apply Hgate; [exact Hc | exact Hdiff].
Qed.

Lemma callWith_log oracle ts sender c st :
  (forall req s, exists l, events (snd (oracle req s)) = events s ++ l) ->
  exists l,
    events (snd (callWith oracle ts sender c st)) = events st ++ l
    /\ (succeeded (fst (callWith oracle ts sender c st)) = true ->
        (forall a, c <> WithdrawPlatformFees a) -> l <> []).
Proof.
  intros Hor.
  destruct c; run_body;
    repeat match goal with
    | H : oracle ?r ?s = (_, ?s1) |- _ =>
        let l0 := fresh "l0" in let E := fresh "El" in
        destruct (Hor r s) as [l0 E]; rewrite H in E; cbn [snd] in E;
        reduce_state; revert H
    end; intros;
    try (exists []; split; [symmetry; apply app_nil_r | discriminate]);
    try match goal with
        | E : events ?s1 = events st ++ ?l0 |- _ => rewrite E
        end;
    rewrite <- ?app_assoc;
    try (eexists; split; [reflexivity |]; intros _ Hw;
         first [ exfalso; eapply Hw; reflexivity
               | let X := fresh in intros X; apply app_eq_nil in X;
                 destruct X as [_ X]; discriminate X
               | discriminate ]).
Qed.

Lemma interact_log ts tok : forall req st,
  exists l, events (snd (interact ts tok req st)) = events st ++ l.
Proof.
  induction tok as [ok | | caller c inner IHinner k IHk]; intros req st;
    try (exists []; symmetry; apply app_nil_r).
  cbn [interact].
  destruct (callWith_log (interact ts inner) ts caller c st IHinner) as (l1 & E1 & _).
  destruct (callWith (interact ts inner) ts caller c st) as [r st1].
  cbn [snd] in E1.
  destruct (IHk r req st1) as [l2 E2].
  exists (l1 ++ l2). rewrite E2, E1, app_assoc. reflexivity.
Qed.

(** X7. The event log is append-only: every call leaves the log it found
    as a prefix of the log it leaves, and so does every sequence of
    transactions; and every successful call, other than
    withdrawPlatformFees, appends at least one event. *)
Theorem log_is_append_only :
  (forall ts sender c tok st,
      exists l,
        events (snd (call ts sender c tok st)) = events st ++ l
        /\ (succeeded (fst (call ts sender c tok st)) = true ->
            (forall a, c <> WithdrawPlatformFees a) -> l <> []))
  /\ (forall txs st, exists l, events (run txs st) = events st ++ l).
Proof.
  assert (Hcall : forall ts sender c tok st,
      exists l,
        events (snd (call ts sender c tok st)) = events st ++ l
        /\ (succeeded (fst (call ts sender c tok st)) = true ->
            (forall a, c <> WithdrawPlatformFees a) -> l <> [])).
  { intros. apply callWith_log. apply interact_log. }
  split; [exact Hcall |].
  induction txs as [| tx rest IH]; intros st.
  - exists []. symmetry. apply app_nil_r.
  - cbn [run].
    destruct (Hcall (tx_timestamp tx) (tx_sender tx) (tx_call tx) (tx_token tx) st)
      as (l1 & E1 & _).
    fold (step tx st) in E1.
    destruct (IH (snd (step tx st))) as [l2 E2].
    exists (l1 ++ l2). rewrite E2, E1, app_assoc. reflexivity.
Qed.

Lemma tipTotal_app c l1 l2 : tipTotal c (l1 ++ l2) = tipTotal c l1 + tipTotal c l2.
Proof.
  induction l1 as [| e l1 IH]; [reflexivity |].
  destruct e; cbn; rewrite IH; lia.
Qed.

Lemma callWith_tipsMatchLog oracle ts sender c st :
  (forall req s, tipsMatchLog s -> tipsMatchLog (snd (oracle req s))) ->
  tipsMatchLog st -> tipsMatchLog (snd (callWith oracle ts sender c st)).
Proof.
  intros Hor HP.
  destruct c; run_body; use_oracle Hor HP; try assumption;
    intros c0; unfold tipsMatchLog, tipsOf in *; reduce_state;
    rewrite ?tipTotal_app; cbn [tipTotal];
    rewrite ?lookup_insert; repeat case_decide; subst; cbn [default from_option id];
    rewrite ?N.eqb_refl;
    repeat match goal with
           | H : ?a <> ?b |- context [?a =? ?b] =>
               rewrite (proj2 (N.eqb_neq a b) H)
           end;
    rewrite <- ?Hinv, <- ?HP; lia.
Qed.

(** X8. In every state the ledger can reach, totalTipsReceived of a
    creator equals the sum of the amounts of the TipSent events to that
    creator in the log: the gross amounts, before the platform cut. *)
Theorem tips_received_match_log st :
  reachable st -> forall c, tipsOf st c = tipTotal c (events st).
Proof.
  apply (reachable_invariant tipsMatchLog).
  - intros deployer token agent s Hinit. unfold constructor in Hinit.
    repeat match type of Hinit with
           | (if ?b then _ else _) = _ => destruct b; try discriminate Hinit
           end.
    injection Hinit as <-. intros c. reflexivity.
  - intros oracle ts sender c s. apply callWith_tipsMatchLog.
Qed.

Lemma createEscrow_effect oracle ts sender cr a cid st r st' :
  wellBehaved oracle ->
  callWith oracle ts sender (CreateMicropaymentEscrow cr a cid) st = (Success r, st') ->
  let id0 := escrowIdOf sender cr cid ts in
  r = Some id0
  /\ Escrow.payer (escrowAt st id0) = 0
  /\ cr <> 0 /\ a <> 0
  /\ escrowAt st' id0 = Escrow.mk sender cr a ts false cid
  /\ (forall id, id <> id0 -> escrowAt st' id = escrowAt st id)
  /\ creatorBalances st' = creatorBalances st.
Proof.
  intros Hor. cbv zeta. run_body; intros H; try discriminate H.
  injection H as <- <-. frame_oracle Hor. reduce_state. leb_to_le.
  destruct (Escrow.payer _ =? 0) eqn:Hz in Heqb2; try discriminate.
  leb_to_le. rewrite Fesc, Fbal.
  repeat (split; [first [reflexivity | assumption] |]).
  split; [rewrite lookup_insert_eq; reflexivity |].
  split; [| reflexivity].
  intros id Hne. rewrite lookup_insert_ne by congruence. reflexivity.
Qed.

Lemma escrow_terms_forever id txs : forall st,
  Escrow.payer (escrowAt st id) <> 0 ->
  Escrow.set_released true (escrowAt (run txs st) id)
  = Escrow.set_released true (escrowAt st id)
  /\ (Escrow.released (escrowAt st id) = true ->
      Escrow.released (escrowAt (run txs st) id) = true).
Proof.
  induction txs as [| tx rest IH]; intros st Hp; [split; auto |].
  cbn [run].
  pose proof (callWith_escrow
                (interact (tx_timestamp tx) (tx_token tx))
                (tx_timestamp tx) (tx_sender tx) (tx_call tx) st id
                (interact_wellBehaved _ _)) as H.
  cbv zeta in H.
  fold (call (tx_timestamp tx) (tx_sender tx) (tx_call tx) (tx_token tx) st) in H.
  fold (step tx st) in H.
  destruct H as [H | [H | H]].
  - assert (Hp' : Escrow.payer (escrowAt (snd (step tx st)) id) <> 0) by congruence.
    destruct (IH _ Hp') as [E M]. rewrite H in E, M. split; assumption.
  - destruct H as (_ & _ & _ & _ & Hrel & H).
    assert (Hp' : Escrow.payer (escrowAt (snd (step tx st)) id) <> 0)
      by (rewrite H; exact Hp).
    destruct (IH _ Hp') as [E M]. rewrite H in E, M. split.
    + rewrite E. reflexivity.
    + intros _. apply M. reflexivity.
  - destruct H as (? & ? & ? & _ & _ & _ & H & _). congruence.
Qed.

(** X9. createMicropaymentEscrow is refused for a zero creator or a zero
    amount; on success it stores the gross amount under the new identifier
    and credits no balance. From then on the payer, the creator, the
    amount, the creation time and the content identifier of the escrow
    never change, and released never goes back to false; so a later
    release credits the creator with the deposited amount less the
    platform cut at the fee rate in force at the release. *)
Theorem escrow_terms_are_fixed :
  (forall oracle ts sender cr a cid st,
      (cr = 0 ->
       callWith oracle ts sender (CreateMicropaymentEscrow cr a cid) st
       = (Failure (if entered st then ReentrancyGuardReentrantCall else InvalidAddress),
          st))
      /\ (cr <> 0 -> a = 0 ->
          callWith oracle ts sender (CreateMicropaymentEscrow cr a cid) st
          = (Failure (if entered st then ReentrancyGuardReentrantCall else InvalidAmount),
             st)))
  /\ (forall ts sender cr a cid tok st r st',
        call ts sender (CreateMicropaymentEscrow cr a cid) tok st = (Success r, st') ->
        r = Some (escrowIdOf sender cr cid ts)
        /\ escrowAt st' (escrowIdOf sender cr cid ts) = Escrow.mk sender cr a ts false cid
        /\ forall c, balanceOf st' c = balanceOf st c)
  /\ (forall id st,
        Escrow.payer (escrowAt st id) <> 0 ->
        forall txs,
          let e := escrowAt st id in
          let e' := escrowAt (run txs st) id in
          Escrow.payer e' = Escrow.payer e /\ Escrow.creator e' = Escrow.creator e
          /\ Escrow.amount e' = Escrow.amount e /\ Escrow.createdAt e' = Escrow.createdAt e
          /\ Escrow.contentId e' = Escrow.contentId e
          /\ (Escrow.released e = true -> Escrow.released e' = true)
          /\ forall ts sender tok r st',
              call ts sender (ReleaseMicropayment id) tok (run txs st) = (Success r, st') ->
              balanceOf st' (Escrow.creator e)
              = balanceOf (run txs st) (Escrow.creator e)
                + (Escrow.amount e
                   - Escrow.amount e * platformFee (run txs st) / FEE_DENOMINATOR)).
Proof.
  split; [| split].
  - intros oracle ts sender cr a cid st. split.
    + intros ->. run_body; leb_to_le; congruence.
    + intros Hcr ->. run_body; leb_to_le; congruence.
  - intros ts sender cr a cid tok st r st' Hc. unfold call in Hc.
    destruct (createEscrow_effect _ _ _ _ _ _ _ _ _ (interact_wellBehaved ts tok) Hc)
      as (Hr & _ & _ & _ & Hnew & _ & Hbal).
    split; [exact Hr |]. split; [exact Hnew |].
    intros c. unfold balanceOf. rewrite Hbal. reflexivity.
  - intros id st Hp txs. cbv zeta.
    destruct (escrow_terms_forever id txs st Hp) as [E M].
    assert (Hf : Escrow.payer (escrowAt (run txs st) id) = Escrow.payer (escrowAt st id)
                 /\ Escrow.creator (escrowAt (run txs st) id)
                    = Escrow.creator (escrowAt st id)
                 /\ Escrow.amount (escrowAt (run txs st) id)
                    = Escrow.amount (escrowAt st id)
                 /\ Escrow.createdAt (escrowAt (run txs st) id)
                    = Escrow.createdAt (escrowAt st id)
                 /\ Escrow.contentId (escrowAt (run txs st) id)
                    = Escrow.contentId (escrowAt st id)).
    { destruct (escrowAt (run txs st) id), (escrowAt st id).
      unfold Escrow.set_released in E. cbn in *.
      injection E as -> -> -> -> ->. repeat split. }
    destruct Hf as (F1 & F2 & F3 & F4 & F5).
    repeat (split; [assumption |]).
    intros ts sender tok r st' Hc.
    rewrite <- F2, <- F3.
    apply (settled_credit ts sender (ReleaseMicropayment id) tok (run txs st) r st');
      [reflexivity | exact Hc].
Qed.

(** X10. A subscription cannot be created twice in the same second: after
    a successful createSubscription, a second one for the same subscriber,
    creator and amount at the same block timestamp, whatever its interval
    of at least a day, fails with SubscriptionAlreadyExists and charges
    nothing. *)
Theorem duplicate_subscription_rejected ts sender sb cr a i tok st r st1 :
  call ts sender (CreateSubscription sb cr a i) tok st = (Success r, st1) ->
  forall i2 oracle,
    ONE_DAY <= i2 ->
    callWith oracle ts (agentWallet st1) (CreateSubscription sb cr a i2) st1
    = (Failure SubscriptionAlreadyExists, st1).
Proof.
  intros Hc i2 oracle Hi2.
  pose proof Hc as Hv. unfold call in Hv. apply createSubscription_validated in Hv.
  destruct Hv as (_ & He & Hcr & Hsb & Ha & _).
  pose proof (call_keeps_guard_clear ts sender (CreateSubscription sb cr a i) tok st He)
    as He1.
  rewrite Hc in He1. cbn [snd] in He1.
  assert (Hr : exists id, r = Some id).
  { revert Hc. unfold call. run_body; intros H; try discriminate H.
    injection H as <- _. eauto. }
  destruct Hr as [id ->].
  apply createSubscription_success in Hc. destruct Hc as (-> & _ & Hs1).
  apply N.eqb_neq in Hcr, Hsb, Ha. apply N.ltb_ge in Hi2.
  unfold subscriptionAt in Hs1.
  unfold_contract. reduce_state.
  rewrite N.eqb_refl, He1. reduce_state. rewrite Hcr. reduce_state.
  rewrite Hsb. reduce_state. rewrite Ha. reduce_state. rewrite Hi2. reduce_state.
  rewrite Hs1. cbn [Subscription.subscriber]. rewrite Hsb. reflexivity.
Qed.

End MoreProperties.

(** ** The further properties on the sample ledger *)

Ltac by_compute :=
  vm_compute; first [reflexivity | discriminate | intro; discriminate].


Lemma cancelSubscription_is_final_witness :
  subscriptionAt (run lateCharge cancelled) sampleSub
  = subscriptionAt cancelled sampleSub.
Proof.
  destruct (@cancelSubscription_is_final sampleChain) as [_ H].
  apply (H sampleSub cancelled); by_compute.
Defined.

Lemma reachable_index_matches_records_witness :
  sampleSub ∈ getUserSubscriptions 7 subscribed.
Proof.
  assert (Hr : reachable (chain := sampleChain) subscribed)
    by (apply reachable_call, (reachable_init 1 50 2); reflexivity).
  destruct (@reachable_index_matches_records sampleChain subscribed Hr) as [H _].
  apply H. split; by_compute.
Defined.

Lemma creator_keeps_nine_tenths_witness : platformFee subscribed <= 1000.
Proof.
  assert (Hr : reachable (chain := sampleChain) subscribed)
    by (apply reachable_call, (reachable_init 1 50 2); reflexivity).
  destruct (@creator_keeps_nine_tenths sampleChain subscribed Hr) as [H _].
  exact H.
Defined.

Lemma isPaymentDue_decides_processing_witness :
  exists st',
    sampleCall 2600000 2 (ProcessSubscriptionPayment sampleSub) (TReturn true) subscribed
    = (Success None, st')
    /\ balanceOf st' 9 = balanceOf subscribed 9 + 4875000
    /\ (0 < 2592000 -> isPaymentDue 2600000 sampleSub st' = false).
Proof.
  destruct (@isPaymentDue_decides_processing sampleChain) as [H _].
  destruct (H 2592100 2600000 sampleSub subscribed) as [_ H2]; [by_compute .. |].
  apply H2; by_compute.
Defined.

Lemma agent_rotation_witness :
  sampleCall 300 2 (SendTip 7 9 1000 "post") (TReturn true) rotated
  = (Failure UnauthorizedAgent, rotated).
Proof.
  destruct (@agent_rotation sampleChain) as (_ & _ & H).
  apply H; by_compute.
Defined.

Lemma log_is_append_only_witness :
  exists l, events (run lateCharge subscribed) = events subscribed ++ l.
Proof.
  destruct (@log_is_append_only sampleChain) as [_ H].
  apply (H lateCharge subscribed).
Defined.

Lemma tips_received_match_log_witness :
  tipsOf tipped 9 = tipTotal 9 (events tipped).
Proof.
  apply (@tips_received_match_log sampleChain tipped).
  apply reachable_call, (reachable_init 1 50 2). reflexivity.
Defined.

Lemma escrow_terms_are_fixed_witness :
  Escrow.amount (escrowAt (run lateCharge escrowed) sampleEscrow)
  = Escrow.amount (escrowAt escrowed sampleEscrow).
Proof.
  destruct (@escrow_terms_are_fixed sampleChain) as (_ & _ & H).
  assert (Hp : Escrow.payer (escrowAt escrowed sampleEscrow) <> 0) by by_compute.
  destruct (H sampleEscrow escrowed Hp lateCharge) as (_ & _ & Ha & _).
  exact Ha.
Defined.

Lemma duplicate_subscription_rejected_witness :
  callWith (chain := sampleChain) (interact 100 (TReturn true)) 100 2
    (CreateSubscription 7 9 5000000 604800) subscribed
  = (Failure SubscriptionAlreadyExists, subscribed).
Proof.
  assert (Hc : call (chain := sampleChain) 100 2
                 (CreateSubscription 7 9 5000000 2592000) (TReturn true) deployed
               = (Success (Some sampleSub), subscribed)) by by_compute.
  apply (@duplicate_subscription_rejected sampleChain _ _ _ _ _ _ _ _ _ _ Hc
           604800 (interact 100 (TReturn true))).
  by_compute.
Defined.

(** ** Properties of SubscriptionTipping *)

Module TippingProperties.

Import SubscriptionTipping.

Ltac unfold_tipping :=
  cbv beta delta [call callWith dispatch transferOwnership subscribe
    cancelSubscription reactivateSubscription addRelayer removeRelayer
    processSubscription authorizedRelayer recordPayment recordPayments tip
    emergencyWithdraw updateSubscriptionAmount onlyOwner _safeTransferFrom
    _safeTransfer safeCall updateSubscription emit checkedAdd bind ret require
    sload sstore] in *.

Ltac reduce_tipping :=
  cbn [owner token subscriptions relayers events set_owner set_subscriptions
       set_relayers set_events amount nextPayment active lastPayment
       set_amount set_nextPayment set_active set_lastPayment
       fst snd negb andb orb] in *.

Ltac case_tipping :=
  match goal with
  | |- context [if ?c then _ else _] => destruct c eqn:?
  | |- context [match ?o ?r ?s with (_, _) => _ end] =>
      let s' := fresh "st" in
      destruct (o r s) as [[| | [] |] s'] eqn:?
  end.

Ltac run_tipping :=
  unfold_tipping; reduce_tipping; repeat (case_tipping; reduce_tipping).


(** A failed call leaves the storage as it was. *)
Lemma tipping_callWith_failure oracle ts sender c st e st' :
  callWith oracle ts sender c st = (Failure e, st') -> st' = st.
Proof. unfold callWith. destruct (dispatch _ _ _ _ _); congruence. Qed.

(** What the loop of recordPayments leaves alone. *)
Lemma recordLoop_frame ts entries : forall st st',
  recordLoop ts entries st = Done tt st' ->
  owner st' = owner st /\ token st' = token st /\ relayers st' = relayers st
  /\ forall u c,
      amount (getSubscription u c st') = amount (getSubscription u c st)
      /\ active (getSubscription u c st') = active (getSubscription u c st).
Proof.
  induction entries as [| [[[u0 c0] a0] t0] rest IH]; intros st st' H.
  - cbn in H. injection H as <-. repeat split.
  - cbn [recordLoop] in H. unfold bind at 1, sload at 1 in H.
    destruct (negb (active (getSubscription u0 c0 st))
              || (amount (getSubscription u0 c0 st) =? 0)).
    + apply IH, H.
    + revert H. unfold_tipping.
      destruct (_ <=? UINT256_MAX); [| discriminate].
      intros H. apply IH in H. reduce_tipping.
      destruct H as (Ho & Ht & Hr & Hs).
      split; [assumption |]. split; [assumption |]. split; [assumption |].
      intros u c. destruct (Hs u c) as [E1 E2]. rewrite E1, E2.
      unfold getSubscription. reduce_tipping.
      rewrite !lookup_insert. repeat case_decide; simplify_eq;
        cbn; split; reflexivity.
Qed.

Lemma tipping_interact_invariant (P : State -> Prop) :
  (forall oracle ts sender c st,
      (forall req s, P s -> P (snd (oracle req s))) ->
      P st -> P (snd (callWith oracle ts sender c st))) ->
  forall ts tok req st, P st -> P (snd (interact ts tok req st)).
Proof.
  intros Hstep ts tok.
  induction tok as [r | caller c inner IHinner k IHk]; intros req st HP;
    [exact HP |].
  cbn [interact].
  pose proof (Hstep (interact ts inner) ts caller c st IHinner HP) as H1.
  destruct (callWith (interact ts inner) ts caller c st) as [r st1].
  apply IHk. exact H1.
Qed.

Lemma tipping_reachable_invariant (P : State -> Prop) :
  (forall deployer tk st, deployer <> 0 -> constructor deployer tk = Some st -> P st) ->
  (forall oracle ts sender c st,
      (forall req s, P s -> P (snd (oracle req s))) ->
      P st -> P (snd (callWith oracle ts sender c st))) ->
  forall st, reachable st -> P st.
Proof.
  intros Hinit Hstep st Hr.
  induction Hr as [deployer tk st Hd Hc | st ts sender c tok Hr IH].
  - eapply Hinit; eassumption.
  - apply Hstep; [| exact IH]. intros req s. apply tipping_interact_invariant, Hstep.
Qed.

Ltac use_token Hor HP :=
  try match goal with
  | H : ?o ?r ?s = (_, ?s1) |- _ =>
      let X := fresh "Hinv" in
      pose proof (Hor r s HP) as X; rewrite H in X; cbn [snd] in X
  end.

Ltac read_tipping :=
  unfold getSubscription, isRelayer in *; reduce_tipping;
  rewrite ?lookup_insert; repeat case_decide; simplify_eq;
  cbn [default from_option id] in *; reduce_tipping.

Ltac N_bools :=
  repeat match goal with
  | H : (_ <=? _) = true |- _ => apply N.leb_le in H
  | H : (_ <=? _) = false |- _ => apply N.leb_gt in H
  | H : (_ <? _) = true |- _ => apply N.ltb_lt in H
  | H : (_ <? _) = false |- _ => apply N.ltb_ge in H
  | H : (_ =? _) = true |- _ => apply N.eqb_eq in H
  | H : (_ =? _) = false |- _ => apply N.eqb_neq in H
  end.

Lemma callWith_paying oracle ts sender c st :
  (forall req s,
      (forall u cr, active (getSubscription u cr s) = true ->
                   amount (getSubscription u cr s) <> 0) ->
      forall u cr, active (getSubscription u cr (snd (oracle req s))) = true ->
                  amount (getSubscription u cr (snd (oracle req s))) <> 0) ->
  (forall u cr, active (getSubscription u cr st) = true ->
               amount (getSubscription u cr st) <> 0) ->
  forall u cr,
    active (getSubscription u cr (snd (callWith oracle ts sender c st))) = true ->
    amount (getSubscription u cr (snd (callWith oracle ts sender c st))) <> 0.
Proof.
  intros Hor HP.
  destruct c as [ | | | | | | | | users creators amounts txIds | | | ].
  9: { unfold_tipping. reduce_tipping.
       repeat (case_tipping; reduce_tipping); try assumption.
       destruct (recordLoop ts (entriesOf users creators amounts txIds) st)
         as [[] st' | e] eqn:Hloop; cbn [snd]; [| assumption].
       apply recordLoop_frame in Hloop. destruct Hloop as (_ & _ & _ & Hs).
       intros u cr. destruct (Hs u cr) as [-> ->]. apply HP. }
  all: run_tipping; use_token Hor HP; try assumption;
    intros u0 c0; read_tipping; N_bools;
    first [ apply HP | apply Hinv | discriminate | intros _; lia ].
Qed.

(** X11. In every state SubscriptionTipping can reach, an active
    subscription has a positive amount; so the check "invalid subscription
    amount" never fires: neither processSubscription nor recordPayment
    fails with that message. *)
Theorem active_subscriptions_have_amount st :
  reachable st ->
  (forall u c, active (getSubscription u c st) = true ->
               amount (getSubscription u c st) <> 0)
  /\ (forall ts sender u c tok,
        fst (call ts sender (ProcessSubscription u c) tok st)
        <> Failure (Require "invalid subscription amount"))
  /\ (forall ts sender u c a txId tok,
        fst (call ts sender (RecordPayment u c a txId) tok st)
        <> Failure (Require "invalid subscription amount")).
Proof.
  intros Hr.
  assert (HP : forall u c, active (getSubscription u c st) = true ->
                           amount (getSubscription u c st) <> 0).
  { revert st Hr.
    apply (tipping_reachable_invariant
             (fun s => forall u c, active (getSubscription u c s) = true ->
                                   amount (getSubscription u c s) <> 0)).
    - intros deployer tk s _ Hinit. unfold constructor in Hinit.
      destruct (tk =? 0); [discriminate |]. injection Hinit as <-.
      intros u c. unfold getSubscription. cbn [subscriptions].
      rewrite lookup_empty. discriminate.
    - intros oracle ts sender c s Hor HP. apply callWith_paying; assumption. }
  split; [exact HP |]. split.
  - intros ts sender u c tok. unfold call. specialize (HP u c).
    run_tipping; cbn [fst]; try discriminate.
    N_bools. intros _. apply HP; [reflexivity | lia].
  - intros ts sender u c a txId tok. unfold call. specialize (HP u c).
    run_tipping; cbn [fst]; try discriminate.
    N_bools. intros _. apply HP; [reflexivity | lia].
Qed.

Lemma process_effect ts sender u c r st st' :
  r = ReturnedNothing \/ r = ReturnedBool true ->
  call ts sender (ProcessSubscription u c) (TReply r) st = (Success, st') ->
  let s := getSubscription u c st in
  active s = true /\ nextPayment s <= ts /\ amount s <> 0
  /\ getSubscription u c st'
     = mkSubscription (amount s) (nextPayment s + PAYMENT_INTERVAL) true ts
  /\ events st' = events st ++ [SubscriptionPaid u c (amount s) ts ""]
  /\ (forall u' c', (u', c') <> (u, c) ->
      getSubscription u' c' st' = getSubscription u' c' st).
Proof.
  intros Hr. cbv zeta. unfold call.
  destruct Hr as [-> | ->]; run_tipping; intros H; try discriminate H;
    cbn [interact] in *; simplify_eq; N_bools;
    unfold getSubscription in *; reduce_tipping;
    rewrite ?lookup_insert_eq; cbn [default from_option id]; reduce_tipping;
    (split; [reflexivity |]); (split; [assumption |]); (split; [lia |]);
    (split; [destruct (default noSubscription (subscriptions _ !! (u, c))) eqn:E;
             cbn in *; subst; reflexivity |]);
    (split; [reflexivity |]);
    intros u' c' Hne; rewrite !lookup_insert_ne by congruence; reflexivity.
Qed.

Lemma process_succeeds ts sender u c r st :
  r = ReturnedNothing \/ r = ReturnedBool true ->
  let s := getSubscription u c st in
  active s = true -> nextPayment s <= ts -> amount s <> 0 ->
  nextPayment s + PAYMENT_INTERVAL <= UINT256_MAX ->
  exists st', call ts sender (ProcessSubscription u c) (TReply r) st = (Success, st').
Proof.
  intros Hr. cbv zeta. intros Ha Hdue Hamt Hfit.
  apply N.leb_le in Hdue, Hfit.
  assert (Hpos : (0 <? amount (getSubscription u c st)) = true)
    by (apply N.ltb_lt; lia).
  unfold call. unfold_tipping. reduce_tipping.
  rewrite Ha. reduce_tipping. rewrite Hdue. reduce_tipping.
  rewrite Hpos. reduce_tipping. cbn [interact].
  assert (Hsame : nextPayment
                    (getSubscription u c
                       (set_subscriptions
                          (<[(u, c) := set_lastPayment ts (getSubscription u c st)]>
                             (subscriptions st)) st))
                  = nextPayment (getSubscription u c st)).
  { unfold getSubscription. reduce_tipping. rewrite lookup_insert_eq. reflexivity. }
  destruct Hr as [-> | ->]; reduce_tipping; rewrite Hsame, Hfit; reduce_tipping;
    eexists; reflexivity.
Qed.

Lemma processAt_steps u c times : forall st,
  exists k,
    nextPayment (getSubscription u c (processAt u c times st))
    = nextPayment (getSubscription u c st) + N.of_nat k * PAYMENT_INTERVAL
    /\ length (events (processAt u c times st)) = (length (events st) + k)%nat.
Proof.
  induction times as [| t rest IH]; intros st.
  - exists 0%nat. cbn. split; [lia | lia].
  - unfold processAt in *. cbn [fold_left].
    destruct (call t u (ProcessSubscription u c) (TReply (ReturnedBool true)) st)
      as [[| e] st1] eqn:Hc; cbn [snd].
    + destruct (process_effect _ _ _ _ _ _ _ (or_intror eq_refl) Hc)
        as (_ & _ & _ & Hs & He & _).
      destruct (IH st1) as (k & E1 & E2). exists (S k).
      rewrite E1, E2, Hs, He, length_app. cbn. split; lia.
    + apply tipping_callWith_failure in Hc. subst st1. apply IH.
Qed.

(** X12. processSubscription, when the token accepts the transfer without
    calling back, moves the due time by exactly PAYMENT_INTERVAL from its
    old value, whatever the time of the call, sets lastPayment to that
    time, logs the payment and touches no other subscription. So after any
    number of charges the due time has moved by the interval times the
    number of payments logged; and a subscription two periods overdue can
    be charged twice at the same time. *)
Theorem processSubscription_keeps_schedule :
  (forall ts sender u c r st st',
      r = ReturnedNothing \/ r = ReturnedBool true ->
      call ts sender (ProcessSubscription u c) (TReply r) st = (Success, st') ->
      let s := getSubscription u c st in
      active s = true /\ nextPayment s <= ts /\ amount s <> 0
      /\ getSubscription u c st'
         = mkSubscription (amount s) (nextPayment s + PAYMENT_INTERVAL) true ts
      /\ events st' = events st ++ [SubscriptionPaid u c (amount s) ts ""]
      /\ (forall u' c', (u', c') <> (u, c) ->
          getSubscription u' c' st' = getSubscription u' c' st))
  /\ (forall u c times st,
        exists k,
          nextPayment (getSubscription u c (processAt u c times st))
          = nextPayment (getSubscription u c st) + N.of_nat k * PAYMENT_INTERVAL
          /\ length (events (processAt u c times st)) = (length (events st) + k)%nat)
  /\ (forall ts u c st,
        let s := getSubscription u c st in
        active s = true -> amount s <> 0 ->
        nextPayment s + PAYMENT_INTERVAL <= ts ->
        nextPayment s + 2 * PAYMENT_INTERVAL <= UINT256_MAX ->
        getSubscription u c (processAt u c [ts; ts] st)
        = mkSubscription (amount s) (nextPayment s + 2 * PAYMENT_INTERVAL) true ts
        /\ events (processAt u c [ts; ts] st)
           = events st ++ [SubscriptionPaid u c (amount s) ts "";
                           SubscriptionPaid u c (amount s) ts ""]).
Proof.
  split; [exact process_effect |]. split; [exact processAt_steps |].
  intros ts u c st. cbv zeta. intros Ha Hamt Hdue Hfit.
  assert (Hiv : 0 < PAYMENT_INTERVAL) by (unfold PAYMENT_INTERVAL; lia).
  destruct (process_succeeds ts u u c (ReturnedBool true) st (or_intror eq_refl)
              Ha ltac:(lia) Hamt ltac:(lia)) as [st1 H1].
  destruct (process_effect _ _ _ _ _ _ _ (or_intror eq_refl) H1)
    as (_ & _ & _ & Hs1 & He1 & _).
  assert (Ha1 : active (getSubscription u c st1) = true) by (rewrite Hs1; reflexivity).
  assert (Hn1 : nextPayment (getSubscription u c st1)
                = nextPayment (getSubscription u c st) + PAYMENT_INTERVAL)
    by (rewrite Hs1; reflexivity).
  assert (Hm1 : amount (getSubscription u c st1) = amount (getSubscription u c st))
    by (rewrite Hs1; reflexivity).
  destruct (process_succeeds ts u u c (ReturnedBool true) st1 (or_intror eq_refl)
              Ha1 ltac:(lia) ltac:(congruence) ltac:(lia)) as [st2 H2].
  destruct (process_effect _ _ _ _ _ _ _ (or_intror eq_refl) H2)
    as (_ & _ & _ & Hs2 & He2 & _).
  unfold processAt. cbn [fold_left]. rewrite H1. cbn [snd]. rewrite H2. cbn [snd].
  rewrite Hs2, He2, He1, Hn1, Hm1, <- app_assoc. split; [f_equal; lia | reflexivity].
Qed.

Lemma recordLoop_one_by_one ts sender entries : forall st st',
  isRelayer sender st || (sender =? owner st) = true ->
  recordLoop ts entries st = Done tt st' ->
  st' = recordOneByOne ts sender entries st.
Proof.
  induction entries as [| [[[u c] a] t] rest IH]; intros st st' Hauth H.
  - cbn in H. injection H as <-. reflexivity.
  - cbn [recordLoop] in H. unfold bind at 1, sload at 1 in H.
    unfold recordOneByOne. cbn [fold_left]. fold (recordOneByOne ts sender rest).
    destruct (negb (active (getSubscription u c st))
              || (amount (getSubscription u c st) =? 0)) eqn:Hskip.
    + assert (Hsame : snd (call ts sender (RecordPayment u c a t) (TReply CallFailed) st)
                      = st).
      { unfold call. unfold_tipping. reduce_tipping. rewrite Hauth. reduce_tipping.
        destruct (active (getSubscription u c st)); reduce_tipping; [| reflexivity].
        cbn in Hskip. apply N.eqb_eq in Hskip. rewrite Hskip. reflexivity. }
      rewrite Hsame. apply IH; assumption.
    + apply orb_false_iff in Hskip. destruct Hskip as [Hact Hamt].
      apply negb_false_iff in Hact. apply N.eqb_neq in Hamt.
      assert (Hpos : (0 <? amount (getSubscription u c st)) = true)
        by (apply N.ltb_lt; lia).
      revert H. unfold call. unfold_tipping. reduce_tipping.
      rewrite Hauth. reduce_tipping. rewrite Hact. reduce_tipping.
      rewrite Hpos. reduce_tipping.
      destruct (_ <=? UINT256_MAX); [| discriminate].
      reduce_tipping. intros H. apply IH; [| exact H].
      unfold isRelayer. reduce_tipping. exact Hauth.
Qed.

(** X13. A batch is the sum of its entries: when recordPayments succeeds,
    the four arrays have the same length and the storage and the log it
    leaves are those that one recordPayment call per entry, by the same
    caller at the same time and in the same order, would leave (an entry
    for an inactive or empty subscription changing nothing either way). *)
Theorem recordPayments_is_recordPayment_per_entry
    ts sender users creators amounts txIds tok st st' :
  call ts sender (RecordPayments users creators amounts txIds) tok st = (Success, st') ->
  length creators = length users /\ length amounts = length users
  /\ length txIds = length users
  /\ st' = recordOneByOne ts sender (entriesOf users creators amounts txIds) st.
Proof.
  unfold call. unfold_tipping. reduce_tipping.
  destruct (isRelayer sender st || (sender =? owner st)) eqn:Hauth;
    reduce_tipping; [| discriminate].
  destruct (Nat.eqb (length creators) (length users)
            && Nat.eqb (length amounts) (length users)
            && Nat.eqb (length txIds) (length users)) eqn:Hlen;
    reduce_tipping; [| discriminate].
  apply andb_true_iff in Hlen. destruct Hlen as [Hlen H3].
  apply andb_true_iff in Hlen. destruct Hlen as [H1 H2].
  apply Nat.eqb_eq in H1, H2, H3.
  destruct (recordLoop ts (entriesOf users creators amounts txIds) st)
    as [[] st1 | e] eqn:Hloop; [| discriminate].
  intros H. injection H as <-.
  repeat (split; [assumption |]).
  eapply recordLoop_one_by_one; eassumption.
Qed.

(** X14. Cancelling and reactivating: reactivateSubscription is refused for
    an active subscription and for one that was never made; a cancelled
    subscription cannot be charged; and reactivating it restores it with
    its amount, with the next payment a full interval after the time of
    the reactivation. *)
Theorem cancel_then_reactivate :
  (forall oracle ts sender c st,
      let s := getSubscription sender c st in
      (active s = true ->
       callWith oracle ts sender (ReactivateSubscription c) st
       = (Failure (Require "subscription already active"), st))
      /\ (active s = false -> amount s = 0 ->
          callWith oracle ts sender (ReactivateSubscription c) st
          = (Failure (Require "no subscription exists"), st))
      /\ (active s = false ->
          callWith oracle ts sender (CancelSubscription c) st
          = (Failure (Require "subscription not active"), st)))
  /\ (forall t1 t2 u c tok1 tok2 st,
        let s := getSubscription u c st in
        active s = true -> amount s <> 0 ->
        t2 + PAYMENT_INTERVAL <= UINT256_MAX ->
        let st1 := snd (call t1 u (CancelSubscription c) tok1 st) in
        getSubscription u c st1 = set_active false s
        /\ (forall ts sender tok,
              call ts sender (ProcessSubscription u c) tok st1
              = (Failure (Require "subscription not active"), st1))
        /\ exists st2,
            call t2 u (ReactivateSubscription c) tok2 st1 = (Success, st2)
            /\ getSubscription u c st2
               = mkSubscription (amount s) (t2 + PAYMENT_INTERVAL) true (lastPayment s)).
Proof.
  split.
  - intros oracle ts sender c st. cbv zeta. split; [| split].
    + intros Ha. unfold_tipping. reduce_tipping. rewrite Ha. reflexivity.
    + intros Ha Hz. unfold_tipping. reduce_tipping. rewrite Ha, Hz. reflexivity.
    + intros Ha. unfold_tipping. reduce_tipping. rewrite Ha. reflexivity.
  - intros t1 t2 u c tok1 tok2 st. cbv zeta. intros Ha Hamt Hfit.
    apply N.leb_le in Hfit.
    assert (Hpos : (0 <? amount (getSubscription u c st)) = true)
      by (apply N.ltb_lt; lia).
    assert (Hc : call t1 u (CancelSubscription c) tok1 st
                 = (Success,
                    set_events (events st ++ [SubscriptionCancelled u c t1])
                      (set_subscriptions
                         (<[(u, c) := set_active false (getSubscription u c st)]>
                            (subscriptions st)) st))).
    { unfold call. unfold_tipping. reduce_tipping. rewrite Ha. reflexivity. }
    rewrite Hc. cbn [snd].
    assert (Hs1 : getSubscription u c
                    (set_events (events st ++ [SubscriptionCancelled u c t1])
                       (set_subscriptions
                          (<[(u, c) := set_active false (getSubscription u c st)]>
                             (subscriptions st)) st))
                  = set_active false (getSubscription u c st)).
    { unfold getSubscription. reduce_tipping. rewrite lookup_insert_eq. reflexivity. }
    split; [exact Hs1 |]. split.
    + intros ts sender tok. unfold call. unfold_tipping. reduce_tipping.
      rewrite Hs1. reflexivity.
    + unfold call. unfold_tipping. reduce_tipping. rewrite Hs1. reduce_tipping.
      rewrite Hpos. reduce_tipping. rewrite Hfit. reduce_tipping.
      eexists. split; [reflexivity |].
      unfold getSubscription. reduce_tipping.
      rewrite !lookup_insert_eq. cbn [default from_option id]. reduce_tipping.
      reflexivity.
Qed.

Lemma owner_never_zero st : reachable st -> owner st <> 0.
Proof.
  apply (tipping_reachable_invariant (fun s => owner s <> 0)).
  - intros deployer tk s Hd Hinit. unfold constructor in Hinit.
    destruct (tk =? 0); [discriminate |]. injection Hinit as <-. exact Hd.
  - intros oracle ts sender c s Hor HP.
    destruct c as [ | | | | | | | | users creators amounts txIds | | | ].
    9: { unfold_tipping. reduce_tipping.
         repeat (case_tipping; reduce_tipping); try assumption.
         destruct (recordLoop ts (entriesOf users creators amounts txIds) s)
           as [[] st' | e] eqn:Hloop; cbn [snd]; [| assumption].
         apply recordLoop_frame in Hloop. destruct Hloop as (-> & _). exact HP. }
    all: run_tipping; use_token Hor HP; try assumption.
    rewrite negb_true_iff in *. N_bools. assumption.
Qed.

(** X15. Who may record payments: recordPayment and recordPayments fail
    with "not authorized" for a caller who is neither a relayer nor the
    owner; addRelayer and removeRelayer are for the owner alone; a relayer
    added can record, a relayer removed (and not the owner) cannot; the
    owner is never the zero address; and recordPayment never calls the
    token. *)
Theorem relayers_record_payments :
  (forall st, reachable st -> owner st <> 0)
  /\ (forall oracle ts sender st,
        isRelayer sender st = false -> sender <> owner st ->
        (forall u c a t,
            callWith oracle ts sender (RecordPayment u c a t) st
            = (Failure (Require "not authorized"), st))
        /\ (forall us cs az txs,
            callWith oracle ts sender (RecordPayments us cs az txs) st
            = (Failure (Require "not authorized"), st)))
  /\ (forall oracle ts sender r st,
        sender <> owner st ->
        callWith oracle ts sender (AddRelayer r) st
        = (Failure (Require "Ownable: caller is not the owner"), st)
        /\ callWith oracle ts sender (RemoveRelayer r) st
           = (Failure (Require "Ownable: caller is not the owner"), st))
  /\ (forall oracle ts r st,
        r <> 0 ->
        exists st',
          callWith oracle ts (owner st) (AddRelayer r) st = (Success, st')
          /\ isRelayer r st' = true
          /\ (forall r', r' <> r -> isRelayer r' st' = isRelayer r' st)
          /\ owner st' = owner st /\ subscriptions st' = subscriptions st)
  /\ (forall oracle ts r st,
        exists st',
          callWith oracle ts (owner st) (RemoveRelayer r) st = (Success, st')
          /\ isRelayer r st' = false
          /\ (forall r', r' <> r -> isRelayer r' st' = isRelayer r' st)
          /\ owner st' = owner st /\ subscriptions st' = subscriptions st)
  /\ (forall o1 o2 ts sender u c a t st,
        callWith o1 ts sender (RecordPayment u c a t) st
        = callWith o2 ts sender (RecordPayment u c a t) st).
Proof.
  split; [exact owner_never_zero |].
  split; [| split; [| split; [| split]]].
  - intros oracle ts sender st Hrel Hown. apply N.eqb_neq in Hown.
    split; intros; unfold_tipping; reduce_tipping; rewrite Hrel, Hown; reflexivity.
  - intros oracle ts sender r st Hown.
    assert (H : (owner st =? sender) = false) by (apply N.eqb_neq; congruence).
    split; unfold_tipping; reduce_tipping; rewrite H; reflexivity.
  - intros oracle ts r st Hr. apply N.eqb_neq in Hr.
    unfold_tipping. reduce_tipping. rewrite N.eqb_refl. reduce_tipping.
    rewrite Hr. reduce_tipping. eexists. split; [reflexivity |].
    unfold isRelayer. reduce_tipping. rewrite lookup_insert_eq.
    repeat split. intros r' Hne. rewrite lookup_insert_ne by congruence. reflexivity.
  - intros oracle ts r st.
    unfold_tipping. reduce_tipping. rewrite N.eqb_refl. reduce_tipping.
    eexists. split; [reflexivity |].
    unfold isRelayer. reduce_tipping. rewrite lookup_insert_eq.
    repeat split. intros r' Hne. rewrite lookup_insert_ne by congruence. reflexivity.
  - intros. reflexivity.
Qed.

(** *** On the sample contract *)

Ltac by_compute :=
  vm_compute; first [reflexivity | discriminate | intro; discriminate].

Lemma subscribed_reachable : reachable subscribed.
Proof. apply reachable_call, (reachable_init 1 50); [lia | reflexivity]. Qed.

Lemma active_subscriptions_have_amount_witness :
  amount (getSubscription 7 9 subscribed) <> 0.
Proof.
  destruct (active_subscriptions_have_amount subscribed) as [H _].
  - apply reachable_call, (reachable_init 1 50); [lia | reflexivity].
  - apply H. by_compute.
Defined.

Lemma processSubscription_keeps_schedule_witness :
  getSubscription 7 9 (processAt 7 9 [6000000; 6000000] subscribed)
  = mkSubscription 5000000 (2592100 + 2 * PAYMENT_INTERVAL) true 6000000.
Proof.
  destruct processSubscription_keeps_schedule as (_ & _ & H).
  destruct (H 6000000 7 9 subscribed) as [H1 _]; [by_compute .. |].
  exact H1.
Defined.

Lemma recordPayments_is_recordPayment_per_entry_witness :
  snd (call 200 5 sampleBatch (TReply CallFailed) relayed)
  = recordOneByOne 200 5 [(7, 9, 5000000, "tx-1"); (8, 9, 1, "tx-2")] relayed.
Proof.
  assert (Hc : call 200 5 sampleBatch (TReply CallFailed) relayed
               = (Success, snd (call 200 5 sampleBatch (TReply CallFailed) relayed)))
    by by_compute.
  destruct (recordPayments_is_recordPayment_per_entry _ _ _ _ _ _ _ _ _ Hc)
    as (_ & _ & _ & H).
  exact H.
Defined.

Lemma cancel_then_reactivate_witness :
  exists st2,
    call 300 7 (ReactivateSubscription 9) (TReply CallFailed)
      (snd (call 200 7 (CancelSubscription 9) (TReply CallFailed) subscribed))
    = (Success, st2)
    /\ getSubscription 7 9 st2
       = mkSubscription (amount (getSubscription 7 9 subscribed))
           (300 + PAYMENT_INTERVAL) true (lastPayment (getSubscription 7 9 subscribed)).
Proof.
  destruct cancel_then_reactivate as [_ H].
  destruct (H 200 300 7 9 (TReply CallFailed) (TReply CallFailed) subscribed)
    as (_ & _ & H3); [by_compute .. |].
  exact H3.
Defined.

Lemma relayers_record_payments_witness :
  callWith (interact 200 (TReply CallFailed)) 200 6 (RecordPayment 7 9 5000000 "tx-1")
    relayed
  = (Failure (Require "not authorized"), relayed).
Proof.
  destruct relayers_record_payments as (_ & H & _).
  destruct (H (interact 200 (TReply CallFailed)) 200 6 relayed) as [H1 _];
    [by_compute .. |].
  apply H1.
Defined.

Lemma process_after_token oracle ts sender u c st st1 :
  let s := getSubscription u c st in
  active s = true -> nextPayment s <= ts -> amount s <> 0 ->
  oracle (TransferFrom (token st) u c (amount s)) st = (ReturnedBool true, st1) ->
  nextPayment (getSubscription u c st1) + PAYMENT_INTERVAL <= UINT256_MAX ->
  exists st2,
    callWith oracle ts sender (ProcessSubscription u c) st = (Success, st2)
    /\ getSubscription u c st2
       = set_nextPayment (nextPayment (getSubscription u c st1) + PAYMENT_INTERVAL)
           (set_lastPayment ts (getSubscription u c st1))
    /\ events st2
       = events st1 ++ [SubscriptionPaid u c (amount (getSubscription u c st1)) ts ""].
Proof.
  cbv zeta. intros Ha Hdue Hamt Htok Hfit.
  apply N.leb_le in Hdue, Hfit.
  assert (Hpos : (0 <? amount (getSubscription u c st)) = true)
    by (apply N.ltb_lt; lia).
  assert (Hsame : forall v,
             getSubscription u c
               (set_subscriptions (<[(u, c) := v]> (subscriptions st1)) st1) = v).
  { intros v. unfold getSubscription. reduce_tipping. rewrite lookup_insert_eq.
    reflexivity. }
  unfold_tipping. reduce_tipping.
  rewrite Ha. reduce_tipping. rewrite Hdue. reduce_tipping.
  rewrite Hpos. reduce_tipping. rewrite Htok. reduce_tipping.
  rewrite !Hsame. reduce_tipping. rewrite Hfit. reduce_tipping.
  eexists. split; [reflexivity |]. split.
  - unfold getSubscription. reduce_tipping. rewrite !lookup_insert_eq. reflexivity.
  - reduce_tipping. unfold getSubscription. reduce_tipping.
    rewrite !lookup_insert_eq. reflexivity.
Qed.

(** X16. processSubscription has no reentrancy guard and pays before it
    updates: if the token, during the transfer, calls processSubscription
    for the same subscription once more and then accepts, a subscription
    with one payment due is charged twice in the one call: two payments
    are logged and the due time moves by two intervals. *)
Theorem processSubscription_reenters ts sender caller u c st :
  let s := getSubscription u c st in
  let tok := TCallback caller (ProcessSubscription u c) (TReply (ReturnedBool true))
               (fun _ => TReply (ReturnedBool true)) in
  active s = true -> nextPayment s <= ts -> amount s <> 0 ->
  nextPayment s + 2 * PAYMENT_INTERVAL <= UINT256_MAX ->
  exists st2,
    call ts sender (ProcessSubscription u c) tok st = (Success, st2)
    /\ getSubscription u c st2
       = mkSubscription (amount s) (nextPayment s + 2 * PAYMENT_INTERVAL) true ts
    /\ events st2
       = events st ++ [SubscriptionPaid u c (amount s) ts "";
                       SubscriptionPaid u c (amount s) ts ""].
Proof.
  cbv zeta. intros Ha Hdue Hamt Hfit.
  assert (Hiv : 0 < PAYMENT_INTERVAL) by (unfold PAYMENT_INTERVAL; lia).
  destruct (process_succeeds ts caller u c (ReturnedBool true) st (or_intror eq_refl)
              Ha Hdue Hamt ltac:(lia)) as [st1 H1].
  destruct (process_effect _ _ _ _ _ _ _ (or_intror eq_refl) H1)
    as (_ & _ & _ & Hs1 & He1 & _).
  assert (Htok : interact ts
                   (TCallback caller (ProcessSubscription u c)
                      (TReply (ReturnedBool true)) (fun _ => TReply (ReturnedBool true)))
                   (TransferFrom (token st) u c (amount (getSubscription u c st))) st
                 = (ReturnedBool true, st1)).
  { pose proof H1 as H1'. unfold call in H1'. cbn [interact] in H1' |- *.
    rewrite H1'. reflexivity. }
  assert (Hn1 : nextPayment (getSubscription u c st1)
                = nextPayment (getSubscription u c st) + PAYMENT_INTERVAL)
    by (rewrite Hs1; reflexivity).
  destruct (process_after_token _ ts sender u c st st1 Ha Hdue Hamt Htok)
    as (st2 & Hc & Hs2 & He2).
  { rewrite Hn1. lia. }
  exists st2. split; [exact Hc |]. split.
  - rewrite Hs2, Hs1. unfold set_nextPayment, set_lastPayment.
    cbn [amount nextPayment active lastPayment]. f_equal. lia.
  - rewrite He2, He1, Hs1, <- app_assoc. reflexivity.
Qed.

Lemma processSubscription_reenters_witness :
  exists st2,
    call 2592100 3 (ProcessSubscription 7 9)
      (TCallback 4 (ProcessSubscription 7 9) (TReply (ReturnedBool true))
         (fun _ => TReply (ReturnedBool true)))
      subscribed
    = (Success, st2)
    /\ getSubscription 7 9 st2 = mkSubscription 5000000 7776100 true 2592100
    /\ length (events st2) = 4%nat.
Proof.
  destruct (processSubscription_reenters 2592100 3 4 7 9 subscribed)
    as (st2 & Hc & Hs & He); [by_compute .. |].
  exists st2. split; [exact Hc |]. split.
  - rewrite Hs. by_compute.
  - rewrite He. by_compute.
Defined.


Lemma callWith_terms oracle ts sender c st u :
  sender <> u ->
  (forall req s cr,
      amount (getSubscription u cr (snd (oracle req s)))
      = amount (getSubscription u cr s)
      /\ active (getSubscription u cr (snd (oracle req s)))
         = active (getSubscription u cr s)) ->
  forall cr,
    amount (getSubscription u cr (snd (callWith oracle ts sender c st)))
    = amount (getSubscription u cr st)
    /\ active (getSubscription u cr (snd (callWith oracle ts sender c st)))
       = active (getSubscription u cr st).
Proof.
  intros Hne Hor.
  destruct c as [ | | | | | | | | users creators amounts txIds | | | ].
  9: { unfold_tipping. reduce_tipping.
       repeat (case_tipping; reduce_tipping); try (intros; split; reflexivity).
       destruct (recordLoop ts (entriesOf users creators amounts txIds) st)
         as [[] st' | e] eqn:Hloop; cbn [snd]; [| intros; split; reflexivity].
       apply recordLoop_frame in Hloop. destruct Hloop as (_ & _ & _ & Hs).
       exact (Hs u). }
  all: run_tipping; intros cr0;
    try match goal with
    | H : ?o ?r ?s = (_, ?s1) |- _ =>
        let X := fresh "Hinv" in
        pose proof (Hor r s cr0) as X; rewrite H in X; cbn [snd] in X;
        destruct X as [? ?]
    end;
    try (split; reflexivity);
    read_tipping; try (split; reflexivity); try (split; assumption);
    try congruence.
Qed.


Lemma interact_terms ts u tok :
  notCalledBy u tok ->
  forall req s cr,
    amount (getSubscription u cr (snd (interact ts tok req s)))
    = amount (getSubscription u cr s)
    /\ active (getSubscription u cr (snd (interact ts tok req s)))
       = active (getSubscription u cr s).
Proof.
  induction tok as [r | caller c inner IHinner k IHk]; intros Hn req s cr;
    [split; reflexivity |].
  destruct Hn as (Hne & Hin & Hk). cbn [interact].
  pose proof (callWith_terms (interact ts inner) ts caller c s u Hne
                (IHinner Hin) cr) as [E1 E2].
  destruct (callWith (interact ts inner) ts caller c s) as [r s1].
  cbn [snd] in E1, E2.
  destruct (IHk r (Hk r) req s1 cr) as [F1 F2].
  rewrite F1, F2. split; assumption.
Qed.

(** X17. Only the subscriber sets the terms of a subscription: a call from
    anyone else, with a token whose calls back into the contract do not
    come from the subscriber either, leaves the amount and the active flag
    of each of the subscriber's subscriptions as they were. Relayers, the
    owner and processSubscription can move the schedule, nothing more. *)
Theorem only_subscriber_sets_terms ts sender c tok st u :
  sender <> u -> notCalledBy u tok ->
  forall cr,
    amount (getSubscription u cr (snd (call ts sender c tok st)))
    = amount (getSubscription u cr st)
    /\ active (getSubscription u cr (snd (call ts sender c tok st)))
       = active (getSubscription u cr st).
Proof.
  intros Hne Hn cr. unfold call.
  apply callWith_terms; [exact Hne |].
  apply interact_terms, Hn.
Qed.

Lemma callWith_admin oracle ts sender c st o :
  sender <> o -> owner st = o ->
  (forall req s, owner s = o ->
                 owner (snd (oracle req s)) = o
                 /\ relayers (snd (oracle req s)) = relayers s) ->
  owner (snd (callWith oracle ts sender c st)) = o
  /\ relayers (snd (callWith oracle ts sender c st)) = relayers st.
Proof.
  intros Hne Ho Hor.
  destruct c as [ | | | | | | | | users creators amounts txIds | | | ].
  9: { unfold_tipping. reduce_tipping.
       repeat (case_tipping; reduce_tipping); try (split; [assumption | reflexivity]).
       destruct (recordLoop ts (entriesOf users creators amounts txIds) st)
         as [[] st' | e] eqn:Hloop; cbn [snd]; [| split; [assumption | reflexivity]].
       apply recordLoop_frame in Hloop. destruct Hloop as (E1 & _ & E2 & _).
       rewrite E1, E2. split; [assumption | reflexivity]. }
  all: run_tipping;
    try match goal with
    | H : ?f ?r ?s = (_, ?s1) |- _ =>
        let X := fresh "Hinv" in
        pose proof (Hor r s Ho) as X; rewrite H in X; cbn [snd] in X;
        destruct X as [? ?]
    end;
    N_bools; try (split; [assumption | reflexivity]);
    try (split; assumption); try congruence.
Qed.

Lemma interact_admin ts o tok :
  notCalledBy o tok ->
  forall req s, owner s = o ->
    owner (snd (interact ts tok req s)) = o
    /\ relayers (snd (interact ts tok req s)) = relayers s.
Proof.
  induction tok as [r | caller c inner IHinner k IHk]; intros Hn req s Ho;
    [split; [assumption | reflexivity] |].
  destruct Hn as (Hne & Hin & Hk). cbn [interact].
  pose proof (callWith_admin (interact ts inner) ts caller c s o Hne Ho
                (IHinner Hin)) as [E1 E2].
  destruct (callWith (interact ts inner) ts caller c s) as [r s1].
  cbn [snd] in E1, E2.
  destruct (IHk r (Hk r) req s1 E1) as [F1 F2].
  rewrite F2, E2. split; [assumption | reflexivity].
Qed.

(** X18. Only the owner changes the owner and the relayer whitelist: a
    call from anyone else, with a token that is not called back by the
    owner, leaves both as they were, whichever function is called. *)
Theorem only_owner_administers ts sender c tok st :
  sender <> owner st -> notCalledBy (owner st) tok ->
  owner (snd (call ts sender c tok st)) = owner st
  /\ relayers (snd (call ts sender c tok st)) = relayers st.
Proof.
  intros Hne Hn. unfold call.
  apply callWith_admin; [exact Hne | reflexivity |].
  apply interact_admin, Hn.
Qed.


(** X19. A tip is logged exactly when the token accepted the transfer: tip
    succeeds if and only if the creator and the amount are not zero and
    the low-level transferFrom of that amount from the tipper to the
    creator came back successful with no return data or with true; the
    storage is then what the token left, with one TipSent appended. *)
Theorem tip_logged_iff_transfer_accepted oracle ts sender cr a st st' :
  callWith oracle ts sender (Tip cr a) st = (Success, st')
  <-> cr <> 0 /\ a <> 0
      /\ exists r s1,
           oracle (TransferFrom (token st) sender cr a) st = (r, s1)
           /\ (r = ReturnedNothing \/ r = ReturnedBool true)
           /\ st' = set_events (events s1 ++ [TipSent sender cr a ts]) s1.
Proof.
  split.
  - run_tipping; intros H; try discriminate H; N_bools; simplify_eq;
      (split; [destruct (cr =? 0) eqn:E; [discriminate | N_bools; assumption] |]);
      (split; [lia |]); eauto 6.
  - intros (Hcr & Ha & r & s1 & Hor & Hr & ->).
    apply N.eqb_neq in Hcr.
    assert (Hpos : (0 <? a) = true) by (apply N.ltb_lt; lia).
    unfold_tipping. reduce_tipping. rewrite Hcr. reduce_tipping.
    rewrite Hpos. reduce_tipping. rewrite Hor.
    destruct Hr as [-> | ->]; reflexivity.
Qed.



Lemma only_subscriber_sets_terms_witness :
  amount (getSubscription 7 9
            (snd (call 2592100 3 (ProcessSubscription 7 9) processingToken subscribed)))
  = amount (getSubscription 7 9 subscribed)
  /\ active (getSubscription 7 9
               (snd (call 2592100 3 (ProcessSubscription 7 9) processingToken
                       subscribed)))
     = active (getSubscription 7 9 subscribed).
Proof.
  apply (only_subscriber_sets_terms 2592100 3 (ProcessSubscription 7 9)
           processingToken subscribed 7).
  - lia.
  - unfold processingToken. cbn [notCalledBy].
    split; [by_compute |]. split; [exact I | intros r; exact I].
Defined.

Lemma only_owner_administers_witness :
  owner (snd (call 200 7 (AddRelayer 7) processingToken subscribed)) = owner subscribed
  /\ relayers (snd (call 200 7 (AddRelayer 7) processingToken subscribed))
     = relayers subscribed.
Proof.
  apply (only_owner_administers 200 7 (AddRelayer 7) processingToken subscribed).
  - by_compute.
  - unfold processingToken. cbn [notCalledBy].
    split; [by_compute |]. split; [exact I | intros r; exact I].
Defined.

Lemma tip_logged_iff_transfer_accepted_witness :
  callWith (interact 300 (TReply (ReturnedBool false))) 300 7 (Tip 9 1000) subscribed
  <> (Success, set_events (events subscribed ++ [TipSent 7 9 1000 300]) subscribed).
Proof.
  intros H.
  apply (tip_logged_iff_transfer_accepted
           (interact 300 (TReply (ReturnedBool false))) 300 7 9 1000 subscribed) in H.
  destruct H as (_ & _ & r & s1 & Hor & [-> | ->] & _); discriminate Hor.
Defined.


End TippingProperties.
